(** * EC2 termination by tags: a shallow embedding of [ec2_termination.py]

    The script lists the EC2 instances that carry a fixed tag filter, offers to
    clear their protections, images every instance and then terminates the
    instances whose images it recorded.

    Every function of the source is a definition of the same name below.  The
    calls the script makes on the world (the boto3 client, [input], [print],
    [time.sleep], [datetime.now]) go through an explicit world [W]; each run
    returns its result, the world it leaves and the trace of events it
    produced, in the order they happened. *)

From Stdlib Require Import List String Ascii Bool Arith Lia DecimalString.
From Stdlib Require DecimalFacts DecimalNat.
Import ListNotations.
Open Scope string_scope.

(** ** Shapes of the boto3 EC2 client *)

Module Boto3.

Record Tag := { Key : string; Value : string }.

Record Instance := {
  InstanceId : string;
  StateName : string;                 (* instance['State']['Name'] *)
  Tags : option (list Tag)            (* the key 'Tags' may be missing *)
}.

Record Reservation := { Instances : list Instance }.

Record DescribeInstancesResult := {
  Reservations : list Reservation;
  NextToken : option string           (* 'NextToken' in response *)
}.

Record Filter := { Name : string; Values : list string }.

(** Keyword arguments of [describe_instances]; a keyword that the call
    site does not pass is [None]. *)
Record DescribeInstancesRequest := {
  req_Filters : option (list Filter);
  req_NextToken : option string
}.

Record CreateImageRequest := {
  img_InstanceId : string;
  img_Name : string;
  img_Description : string;
  img_NoReboot : bool;
  img_DryRun : bool
}.

Record InstanceStateChange := { CurrentStateName : string }.

Record TerminateInstancesResult := {
  TerminatingInstances : list InstanceStateChange
}.

(** What a client call raises: [botocore.exceptions.ClientError], or some
    other subclass of [Exception] (a connection or validation error). *)
Inductive error :=
| ClientError (msg : string)
| OtherError (msg : string).

Definition str (e : error) : string :=
  match e with ClientError msg => msg | OtherError msg => msg end.

(** The methods of the client the script calls, over a world [W]. *)
Record Client (W : Type) := {
  describe_instances :
    DescribeInstancesRequest -> W -> (error + DescribeInstancesResult) * W;
  describe_instance_attribute :
    string -> string -> W -> (error + bool) * W;
  modify_instance_attribute :
    string -> string -> bool -> W -> (error + unit) * W;
  create_image : CreateImageRequest -> W -> (error + string) * W;
  create_tags : list string -> list Tag -> W -> (error + unit) * W;
  terminate_instances : list string -> W -> (error + TerminateInstancesResult) * W
}.

Arguments describe_instances {W}.
Arguments describe_instance_attribute {W}.
Arguments modify_instance_attribute {W}.
Arguments create_image {W}.
Arguments create_tags {W}.
Arguments terminate_instances {W}.

End Boto3.

(** ** The host: clock, sleep and keyboard *)

Record datetime := {
  year : nat; month : nat; day : nat;
  hour : nat; minute : nat; second : nat
}.

Record Host (W : Type) := {
  host_now : W -> datetime * W;         (* datetime.datetime.now() *)
  host_sleep : nat -> W -> W;           (* time.sleep(n) *)
  host_input : string -> W -> string * W (* input(prompt) *)
}.

Arguments host_now {W}.
Arguments host_sleep {W}.
Arguments host_input {W}.

(** ** Exceptions, results and events *)

Inductive exn :=
| ProviderExn (e : Boto3.error)
| UnboundLocalError (var : string)
| IndexError
| KeyError (key : string)
| SystemExit.

(** [isinstance(e, ClientError)] and [isinstance(e, Exception)]:
    [SystemExit] derives from [BaseException] only. *)
Definition is_ClientError (e : exn) : bool :=
  match e with ProviderExn (Boto3.ClientError _) => true | _ => false end.

Definition is_Exception (e : exn) : bool :=
  match e with SystemExit => false | _ => true end.

Definition str_exn (e : exn) : string :=
  match e with
  | ProviderExn p => Boto3.str p
  | UnboundLocalError var => var
  | IndexError => "list index out of range"
  | KeyError key => key
  | SystemExit => EmptyString
  end.

Inductive res (A : Type) :=
| Val (a : A)
| Exn (e : exn)
| OutOfFuel.

Arguments Val {A}.
Arguments Exn {A}.
Arguments OutOfFuel {A}.

(** A value of a dictionary shown in a table. *)
Inductive cell := CStr (s : string) | CBool (b : bool).

Inductive event :=
| EvPrint (s : string)
| EvTable (headers : list string) (rows : list (list cell))
| EvInput (prompt reply : string)
| EvSleep (seconds : nat)
| EvNow (t : datetime)
| EvDescribeInstances
    (req : Boto3.DescribeInstancesRequest)
    (r : Boto3.error + Boto3.DescribeInstancesResult)
| EvDescribeInstanceAttribute
    (attribute instance_id : string) (r : Boto3.error + bool)
| EvModifyInstanceAttribute
    (instance_id attribute : string) (value : bool) (r : Boto3.error + unit)
| EvCreateImage (req : Boto3.CreateImageRequest) (r : Boto3.error + string)
| EvCreateTags
    (resources : list string) (tags : list Boto3.Tag) (r : Boto3.error + unit)
| EvTerminateInstances
    (instance_ids : list string)
    (r : Boto3.error + Boto3.TerminateInstancesResult).

(** The calls that change the provider's state. *)
Definition mutating (e : event) : bool :=
  match e with
  | EvModifyInstanceAttribute _ _ _ _ => true
  | EvCreateImage _ _ => true
  | EvCreateTags _ _ _ => true
  | EvTerminateInstances _ _ => true
  | _ => false
  end.

Definition is_input (e : event) : bool :=
  match e with EvInput _ _ => true | _ => false end.

(** ** The dictionaries the script builds *)

(** An element of the list [list_instances] returns. *)
Record instance_info := {
  inst_name : string;                   (* 'name' *)
  inst_id : string;                     (* 'id' *)
  inst_state : string;                  (* 'state' *)
  termination_protection : bool;        (* 'termination_protection' *)
  stop_protection : bool                (* 'stop_protection' *)
}.

(** What [get_protections_status] returns. *)
Record protections_status := {
  termination : bool;                   (* 'termination' *)
  stop : bool                           (* 'stop' *)
}.

(** What [create_ami] returns. *)
Record backup_result := {
  instance_name : string;               (* 'instance_name' *)
  instance_id : string;                 (* 'instance_id' *)
  ami_id : string;                      (* 'ami_id' *)
  ami_name : string;                    (* 'ami_name' *)
  backup_completed : bool               (* 'backup_completed' *)
}.

(** An element of the list [terminate_instances] returns. *)
Record terminate_result := {
  term_instance_name : string;          (* 'instance_name' *)
  term_instance_id : string;            (* 'instance_id' *)
  terminate_completed : bool            (* 'terminate_completed' *)
}.

(** The dictionaries as [display_data] sees them: keys in insertion order. *)
Definition dict := list (string * cell).

Definition instance_info_dict (i : instance_info) : dict :=
  [ ("name", CStr (inst_name i));
    ("id", CStr (inst_id i));
    ("state", CStr (inst_state i));
    ("termination_protection", CBool (termination_protection i));
    ("stop_protection", CBool (stop_protection i)) ].

Definition backup_result_dict (b : backup_result) : dict :=
  [ ("instance_name", CStr (instance_name b));
    ("instance_id", CStr (instance_id b));
    ("ami_id", CStr (ami_id b));
    ("ami_name", CStr (ami_name b));
    ("backup_completed", CBool (backup_completed b)) ].

Definition terminate_result_dict (t : terminate_result) : dict :=
  [ ("instance_name", CStr (term_instance_name t));
    ("instance_id", CStr (term_instance_id t));
    ("terminate_completed", CBool (terminate_completed t)) ].

(** ** Strings *)

Definition newline : string := String (ascii_of_nat 10) EmptyString.
Definition dquote : string := String (ascii_of_nat 34) EmptyString.

Definition dec (n : nat) : string := NilEmpty.string_of_uint (Nat.to_uint n).

(** Zero padding to a width, as [strftime] does for its numeric fields. *)
Fixpoint zeros (n : nat) : string :=
  match n with O => EmptyString | S k => "0" ++ zeros k end.

Definition pad (width n : nat) : string :=
  let s := dec n in zeros (width - String.length s) ++ s.

(** [now.strftime("%Y%m%d%H%M%S")] *)
Definition strftime_compact (t : datetime) : string :=
  pad 4 (year t) ++ pad 2 (month t) ++ pad 2 (day t)
  ++ pad 2 (hour t) ++ pad 2 (minute t) ++ pad 2 (second t).

(** [now.strftime("%Y-%m-%d %H:%M:%S")] *)
Definition strftime_readable (t : datetime) : string :=
  pad 4 (year t) ++ "-" ++ pad 2 (month t) ++ "-" ++ pad 2 (day t) ++ " "
  ++ pad 2 (hour t) ++ ":" ++ pad 2 (minute t) ++ ":" ++ pad 2 (second t).

(** A clock reading [datetime.now()] can give: a year of four digits and
    fields of the calendar and of the day in their ranges. *)
Definition valid_datetime (t : datetime) : Prop :=
  1000 <= year t < 10 * 1000
  /\ 1 <= month t <= 12
  /\ 1 <= day t <= 31
  /\ hour t < 24
  /\ minute t < 60
  /\ second t < 60.

(** The number a string of decimal digits writes. *)
Definition read_number (s : string) : nat :=
  match NilEmpty.uint_of_string s with
  | Some d => Nat.of_uint d
  | None => 0
  end.

(** A check used for the width of the padded fields: all the numbers from
    [d] to [d + k], written with the units first, have at most [width]
    digits. *)
Fixpoint short_run (k : nat) (d : Decimal.uint) (width : nat) : bool :=
  (Decimal.nb_digits d <=? width)%nat
  && match k with
     | O => true
     | S k' => short_run k' (Decimal.Little.succ d) width
     end.

Definition lower_ascii (c : ascii) : ascii :=
  let n := nat_of_ascii c in
  if ((65 <=? n)%nat && (n <=? 90)%nat)%bool then ascii_of_nat (n + 32) else c.

(** [s.lower()] on the ASCII range. *)
Fixpoint lower (s : string) : string :=
  match s with
  | EmptyString => EmptyString
  | String c rest => String (lower_ascii c) (lower rest)
  end.

(** [tags] as [get_tag_value] receives it: a list, or something else. *)
Inductive tags_value :=
| TagList (l : list Boto3.Tag)
| NotAList.

(** [get_tag_value(tag_key, tags)] *)
Definition get_tag_value (tag_key : string) (tags : tags_value) : string :=
  match tags with
  | TagList l =>
      match find (fun tag => Boto3.Key tag =? tag_key) l with
      | Some tag => Boto3.Value tag
      | None => "N/A"
      end
  | NotAList => "N/A"
  end.

(** [data[0]] *)
Definition first_item {A : Type} (data : list A) : exn + A :=
  match data with
  | [] => inl IndexError
  | x :: _ => inr x
  end.

(** [item[header]] *)
Definition getitem (item : dict) (header : string) : exn + cell :=
  match find (fun kv => fst kv =? header) item with
  | Some kv => inr (snd kv)
  | None => inl (KeyError header)
  end.

(** A list comprehension whose element expression can raise. *)
Fixpoint comprehension {A B : Type} (f : A -> exn + B) (l : list A)
  : exn + list B :=
  match l with
  | [] => inr []
  | x :: rest =>
      match f x with
      | inl e => inl e
      | inr y =>
          match comprehension f rest with
          | inl e => inl e
          | inr ys => inr (y :: ys)
          end
      end
  end.

(** The headers and rows [display_data] hands to [tabulate.tabulate]. *)
Definition table_of (data : list dict)
  : exn + (list string * list (list cell)) :=
  match first_item data with
  | inl e => inl e
  | inr d0 =>
      let headers := map fst d0 in
      match comprehension
              (fun item => comprehension (fun header => getitem item header) headers)
              data with
      | inl e => inl e
      | inr rows => inr (headers, rows)
      end
  end.

(** [for instance in instances: if ...: protections = True; break] *)
Fixpoint any_protection (instances : list instance_info) : bool :=
  match instances with
  | [] => false
  | instance :: rest =>
      if (termination_protection instance || stop_protection instance)%bool
      then true
      else any_protection rest
  end.

(** [state in ['running', 'stopping', 'stopped']] *)
Definition actionable (state : string) : bool :=
  existsb (String.eqb state) ["running"; "stopping"; "stopped"].

(** The filter [main] builds. *)
Definition main_tags : list Boto3.Filter :=
  [ {| Boto3.Name := "tag:Project"; Boto3.Values := ["Automation"] |};
    {| Boto3.Name := "tag:Environment"; Boto3.Values := ["Test"; "Dev"] |} ].

Definition protections_prompt : string :=
  "Are you want to disable " ++ dquote ++ "all protections" ++ dquote
  ++ " for all instances? (y/n)" ++ newline ++ "> ".

Definition backup_prompt : string :=
  newline ++ "Press enter to continue to backup the instances...".

Definition terminate_prompt : string :=
  newline ++ "Press enter to continue to terminate the instances...".

(** ** The script *)

Section Script.

Context {W : Type}.
Variable ec2_client : Boto3.Client W.
Variable host : Host W.

(** A run from a world: the result, the world left, the events in order. *)
Definition M (A : Type) : Type := W -> res A * W * list event.

Definition ret {A : Type} (a : A) : M A := fun w => (Val a, w, []).

Definition raise {A : Type} (e : exn) : M A := fun w => (Exn e, w, []).

Definition out_of_fuel {A : Type} : M A := fun w => (OutOfFuel, w, []).

Definition bind {A B : Type} (m : M A) (f : A -> M B) : M B :=
  fun w =>
    match m w with
    | (Val a, w1, t1) => let '(r, w2, t2) := f a w1 in (r, w2, (t1 ++ t2)%list)
    | (Exn e, w1, t1) => (Exn e, w1, t1)
    | (OutOfFuel, w1, t1) => (OutOfFuel, w1, t1)
    end.

Notation "x <- c1 ;; c2" := (bind c1 (fun x => c2))
  (at level 61, c1 at next level, right associativity).
Notation "c1 ;; c2" := (bind c1 (fun _ => c2))
  (at level 61, right associativity).

(** [try: body  except C as e: handler e], [catches] deciding
    [isinstance(e, C)]. *)
Definition try_except {A : Type}
    (body : M A) (catches : exn -> bool) (handler : exn -> M A) : M A :=
  fun w =>
    match body w with
    | (Exn e, w1, t1) =>
        if catches e
        then let '(r, w2, t2) := handler e w1 in (r, w2, (t1 ++ t2)%list)
        else (Exn e, w1, t1)
    | other => other
    end.

(** Reading a local variable: one that no assignment has reached yet
    raises. *)
Definition read_local {A : Type} (var : string) (v : option A) : M A :=
  match v with
  | Some a => ret a
  | None => raise (UnboundLocalError var)
  end.

Definition lift {A : Type} (x : exn + A) : M A :=
  match x with inl e => raise e | inr a => ret a end.

Definition print (s : string) : M unit := fun w => (Val tt, w, [EvPrint s]).

Definition sleep (n : nat) : M unit :=
  fun w => (Val tt, host_sleep host n w, [EvSleep n]).

Definition input (prompt : string) : M string :=
  fun w => let '(reply, w') := host_input host prompt w in
           (Val reply, w', [EvInput prompt reply]).

Definition datetime_now : M datetime :=
  fun w => let '(t, w') := host_now host w in (Val t, w', [EvNow t]).

Definition sys_exit {A : Type} : M A := raise SystemExit.

(** A client call: its answer becomes a value or a raised exception, and
    the call is recorded with its answer. *)
Definition client_call {A : Type}
    (call : W -> (Boto3.error + A) * W) (ev : Boto3.error + A -> event)
  : M A :=
  fun w =>
    let '(x, w') := call w in
    (match x with inl e => Exn (ProviderExn e) | inr a => Val a end,
     w', [ev x]).

Definition ec2_describe_instances (req : Boto3.DescribeInstancesRequest) :=
  client_call (Boto3.describe_instances ec2_client req)
              (EvDescribeInstances req).

Definition ec2_describe_instance_attribute (attribute instance_id : string) :=
  client_call (Boto3.describe_instance_attribute ec2_client attribute instance_id)
              (EvDescribeInstanceAttribute attribute instance_id).

Definition ec2_modify_instance_attribute
    (instance_id attribute : string) (value : bool) :=
  client_call (Boto3.modify_instance_attribute ec2_client instance_id attribute value)
              (EvModifyInstanceAttribute instance_id attribute value).

Definition ec2_create_image (req : Boto3.CreateImageRequest) :=
  client_call (Boto3.create_image ec2_client req) (EvCreateImage req).

Definition ec2_create_tags (resources : list string) (tags : list Boto3.Tag) :=
  client_call (Boto3.create_tags ec2_client resources tags)
              (EvCreateTags resources tags).

Definition ec2_terminate_instances (instance_ids : list string) :=
  client_call (Boto3.terminate_instances ec2_client instance_ids)
              (EvTerminateInstances instance_ids).

(** [for x in l: body], threading the variables the body updates. *)
Fixpoint for_each {A S : Type} (l : list A) (body : A -> S -> M S) (s : S)
  : M S :=
  match l with
  | [] => ret s
  | x :: rest => s' <- body x s ;; for_each rest body s'
  end.

(** [display_data(data)]: the bare [except: pass] swallows whatever the
    table construction raises. *)
Definition display_data (data : list dict) : M unit :=
  match table_of data with
  | inr (headers, rows) => fun w => (Val tt, w, [EvTable headers rows])
  | inl _ => ret tt
  end.

(** [get_protections_status(ec2_client, instance_id)] *)
Definition get_protections_status (instance_id : string)
  : M protections_status :=
  termination_protection_status <-
    ec2_describe_instance_attribute "disableApiTermination" instance_id ;;
  stop_protection_status <-
    ec2_describe_instance_attribute "disableApiStop" instance_id ;;
  ret {| termination := termination_protection_status;
         stop := stop_protection_status |}.

(** [disable_instance_protections(ec2_client, instance_id,
    disable_termination, disable_stop)] *)
Definition disable_instance_protections
    (instance_id : string) (disable_termination disable_stop : bool)
  : M unit :=
  (if disable_termination
   then ec2_modify_instance_attribute instance_id "DisableApiTermination" false
   else ret tt) ;;
  (if disable_stop
   then ec2_modify_instance_attribute instance_id "DisableApiStop" false
   else ret tt).

(** [while 'NextToken' in response: ...] of [list_instances]; the loop
    runs as long as the provider keeps handing out tokens, so the model
    bounds it by [fuel].  The continuation call passes [NextToken] only. *)
Fixpoint next_pages (fuel : nat)
    (response : Boto3.DescribeInstancesResult)
    (reservations : list Boto3.Reservation) {struct fuel}
  : M (list Boto3.Reservation) :=
  match Boto3.NextToken response with
  | None => ret reservations
  | Some token =>
      match fuel with
      | O => out_of_fuel
      | S fuel' =>
          response' <- ec2_describe_instances
                         {| Boto3.req_Filters := None;
                            Boto3.req_NextToken := Some token |} ;;
          next_pages fuel' response'
                     (reservations ++ Boto3.Reservations response')%list
      end
  end.

(** The body of the inner [for instance in reservation['Instances']]. *)
Definition list_instance (instance : Boto3.Instance)
    (instances : list instance_info) : M (list instance_info) :=
  let instance_name :=
    get_tag_value "Name"
      (TagList (match Boto3.Tags instance with Some l => l | None => [] end)) in
  protections_status <- get_protections_status (Boto3.InstanceId instance) ;;
  if actionable (Boto3.StateName instance)
  then ret (instances ++
            [ {| inst_name := instance_name;
                 inst_id := Boto3.InstanceId instance;
                 inst_state := Boto3.StateName instance;
                 termination_protection := termination protections_status;
                 stop_protection := stop protections_status |} ])%list
  else ret instances.

(** [list_instances(ec2_client, tags)] *)
Definition list_instances (fuel : nat) (tags : list Boto3.Filter)
  : M (list instance_info) :=
  response <- ec2_describe_instances
                {| Boto3.req_Filters := Some tags;
                   Boto3.req_NextToken := None |} ;;
  reservations <- next_pages fuel response (Boto3.Reservations response) ;;
  for_each reservations
    (fun reservation instances =>
       for_each (Boto3.Instances reservation) list_instance instances)
    [].

(** [create_ami(ec2_client, instance)].  The [try] statement either
    leaves [response] bound ([inr]) or returns from the function ([inl]).
    [ami_id] is a local of the function whose only assignment comes after
    the [try] statement, so the [return] of the second handler reads it
    before any assignment has reached it. *)
Definition create_ami (instance : instance_info) : M backup_result :=
  now <- datetime_now ;;
  let ami_name :=
    "EC2DeletionScript_" ++ inst_id instance ++ "_" ++ strftime_compact now in
  let ami_description :=
    "AMI created on " ++ strftime_readable now ++ " by EC2 deletion script." in
  let ami_id : option string := None in
  attempt <-
    try_except
      (print ("Creating AMI from instance " ++ inst_name instance
              ++ " (" ++ inst_id instance ++ ")...") ;;
       response <- ec2_create_image
                     {| Boto3.img_InstanceId := inst_id instance;
                        Boto3.img_Name := ami_name;
                        Boto3.img_Description := ami_description;
                        Boto3.img_NoReboot := true;
                        Boto3.img_DryRun := false |} ;;
       ret (inr response))
      is_ClientError
      (fun e =>
         print "Creating AMI is failed, retrying..." ;;
         print (str_exn e) ;;
         sleep 5 ;;
         try_except
           (print ("Creating AMI from instance " ++ inst_name instance
                   ++ " (" ++ inst_id instance ++ ")...") ;;
            response <- ec2_create_image
                          {| Boto3.img_InstanceId := inst_id instance;
                             Boto3.img_Name := ami_name;
                             Boto3.img_Description := ami_description;
                             Boto3.img_NoReboot := true;
                             Boto3.img_DryRun := false |} ;;
            ret (inr response))
           is_ClientError
           (fun e =>
              print "Creating AMI is failed, again..." ;;
              print (str_exn e) ;;
              print ("Skipped this instance " ++ inst_name instance
                     ++ " (" ++ inst_id instance ++ ").") ;;
              ami_id_read <- read_local "ami_id" ami_id ;;
              ret (inl {| instance_name := inst_name instance;
                          instance_id := inst_id instance;
                          ami_id := ami_id_read;
                          ami_name := ami_name;
                          backup_completed := false |}))) ;;
  match attempt with
  | inl returned => ret returned
  | inr response =>
      let ami_id := response in       (* response['ImageId'] *)
      ec2_create_tags [ami_id]
        [ {| Boto3.Key := "Name"; Boto3.Value := ami_name |} ] ;;
      print "AMI creation complete." ;;
      ret {| instance_name := inst_name instance;
             instance_id := inst_id instance;
             ami_id := ami_id;
             ami_name := ami_name;
             backup_completed := true |}
  end.

(** The body of the loop of [backup_instances]. *)
Definition backup_instance (instance : instance_info)
    (results : list backup_result) : M (list backup_result) :=
  result <- create_ami instance ;;
  ret (results ++ [result])%list.

(** [backup_instances(ec2_client, instances)] *)
Definition backup_instances (instances : list instance_info)
  : M (list backup_result) :=
  for_each instances backup_instance [].

(** The body of the loop of [terminate_instances].  [status] is still
    [False] wherever the [try] block can raise, so the handler records
    [False]. *)
Definition terminate_instance (instance : backup_result)
    (results : list terminate_result) : M (list terminate_result) :=
  let status := false in
  try_except
    (print ("Terminating " ++ instance_name instance
            ++ " (" ++ instance_id instance ++ ")...") ;;
     response <- ec2_terminate_instances [instance_id instance] ;;
     sleep 3 ;;
     result <- lift (first_item (Boto3.TerminatingInstances response)) ;;
     status' <-
       (if Boto3.CurrentStateName result =? "shutting-down"
        then print "EC2 termination complete." ;; ret true
        else print "Failed to terminate." ;; ret status) ;;
     ret (results ++
          [ {| term_instance_name := instance_name instance;
               term_instance_id := instance_id instance;
               terminate_completed := status' |} ])%list)
    is_Exception
    (fun e =>
       print "Failed to terminate." ;;
       ret (results ++
            [ {| term_instance_name := instance_name instance;
                 term_instance_id := instance_id instance;
                 terminate_completed := status |} ])%list).

(** [terminate_instances(ec2_client, instances)] *)
Definition terminate_instances (instances : list backup_result)
  : M (list terminate_result) :=
  for_each instances terminate_instance [].

(** [main()], with [ec2_client] for the client [boto3.client('ec2')]
    returns. *)
Definition main (fuel : nat) : M unit :=
  print "Starting EC2 deletion script..." ;;
  let tags := main_tags in
  print (newline ++ "Listing instances..." ++ newline) ;;
  instances <- list_instances fuel tags ;;
  display_data (map instance_info_dict instances) ;;
  print (newline ++ "Total: " ++ dec (List.length instances)) ;;
  match instances with
  | [] => ret tt
  | _ :: _ =>
      print (newline ++ "Checking termination protection..." ++ newline) ;;
      let protections := any_protection instances in
      instances <-
        (if protections
         then
           print "Found some protections are enabled on some instances." ;;
           user_input <- input protections_prompt ;;
           if lower user_input =? "y"
           then
             for_each instances
               (fun instance _ =>
                  disable_instance_protections (inst_id instance) true true)
               tt ;;
             print (newline ++ "Listing instances (again)..." ++ newline) ;;
             instances <- list_instances fuel tags ;;
             display_data (map instance_info_dict instances) ;;
             ret instances
           else
             print "Come back if you already disabled protections on all instances." ;;
             sys_exit
         else
           print "Not found any protections are enabled on all instances." ;;
           ret instances) ;;
      input backup_prompt ;;
      print (newline ++ "Backing up instances..." ++ newline) ;;
      backup_results <- backup_instances instances ;;
      print EmptyString ;;
      display_data (map backup_result_dict backup_results) ;;
      input terminate_prompt ;;
      print (newline ++ "Terminating instances that have already been backed up..."
             ++ newline) ;;
      terminate_results <- terminate_instances backup_results ;;
      print EmptyString ;;
      display_data (map terminate_result_dict terminate_results)
  end.

End Script.

Arguments M W A : clear implicits.

(** The parts of a run. *)
Definition result_of {W A : Type} (run : res A * W * list event) : res A :=
  fst (fst run).

Definition world_of {W A : Type} (run : res A * W * list event) : W :=
  snd (fst run).

Definition trace_of {W A : Type} (run : res A * W * list event) : list event :=
  snd run.

(** ** Reading a trace *)

(** The [create_image] calls of a trace, with their answers. *)
Definition image_calls (tr : list event)
  : list (Boto3.CreateImageRequest * (Boto3.error + string)) :=
  flat_map (fun e => match e with
                     | EvCreateImage req r => [(req, r)]
                     | _ => []
                     end) tr.

(** The [create_image] calls and the sleeps of a trace, in order. *)
Definition image_calls_and_sleeps (tr : list event) : list event :=
  filter (fun e => match e with
                   | EvCreateImage _ _ | EvSleep _ => true
                   | _ => false
                   end) tr.

(** The [terminate_instances] calls of a trace, with their answers. *)
Definition terminate_calls (tr : list event)
  : list (list string * (Boto3.error + Boto3.TerminateInstancesResult)) :=
  flat_map (fun e => match e with
                     | EvTerminateInstances ids r => [(ids, r)]
                     | _ => []
                     end) tr.

(** The [describe_instances] calls of a trace, with their answers. *)
Definition describe_calls (tr : list event)
  : list (Boto3.DescribeInstancesRequest
          * (Boto3.error + Boto3.DescribeInstancesResult)) :=
  flat_map (fun e => match e with
                     | EvDescribeInstances req r => [(req, r)]
                     | _ => []
                     end) tr.

(** The [create_tags] calls of a trace that raised. *)
Definition failed_taggings (tr : list event) : list Boto3.error :=
  flat_map (fun e => match e with
                     | EvCreateTags _ _ (inl err) => [err]
                     | _ => []
                     end) tr.

(** An event of the listing: a [describe_instances] call or an attribute
    read. *)
Definition listing (e : event) : Prop :=
  match e with
  | EvDescribeInstances _ _ | EvDescribeInstanceAttribute _ _ _ => True
  | _ => False
  end.

(** An attribute read. *)
Definition attribute_read (e : event) : Prop :=
  match e with
  | EvDescribeInstanceAttribute _ _ _ => True
  | _ => False
  end.

(** An event that is not a [describe_instances] call with a filter. *)
Definition unfiltered (e : event) : Prop :=
  match e with
  | EvDescribeInstances req _ => Boto3.req_Filters req = None
  | _ => True
  end.

(** The lifecycle state a [terminate_instances] answer shows to the script:
    the state of the first element, when the call returned and the list has
    one. *)
Definition observed_state
    (r : Boto3.error + Boto3.TerminateInstancesResult) : option string :=
  match r with
  | inl _ => None
  | inr response =>
      match Boto3.TerminatingInstances response with
      | [] => None
      | change :: _ => Some (Boto3.CurrentStateName change)
      end
  end.

(** The attribute reads of a trace, with their answers. *)
Definition attribute_calls (tr : list event)
  : list (string * string * (Boto3.error + bool)) :=
  flat_map (fun e => match e with
                     | EvDescribeInstanceAttribute attribute instance_id r =>
                         [(attribute, instance_id, r)]
                     | _ => []
                     end) tr.

(** The [modify_instance_attribute] calls of a trace, with their answers. *)
Definition modify_calls (tr : list event)
  : list (string * string * bool * (Boto3.error + unit)) :=
  flat_map (fun e => match e with
                     | EvModifyInstanceAttribute instance_id attribute value r =>
                         [(instance_id, attribute, value, r)]
                     | _ => []
                     end) tr.

(** The [create_tags] calls of a trace, with their answers. *)
Definition tagging_calls (tr : list event)
  : list (list string * list Boto3.Tag * (Boto3.error + unit)) :=
  flat_map (fun e => match e with
                     | EvCreateTags resources tags r => [(resources, tags, r)]
                     | _ => []
                     end) tr.

(** The pages the [describe_instances] calls of a trace got. *)
Definition pages_received (tr : list event)
  : list Boto3.DescribeInstancesResult :=
  flat_map (fun e => match e with
                     | EvDescribeInstances _ (inr page) => [page]
                     | _ => []
                     end) tr.

(** The errors the read calls of a trace raised. *)
Definition failed_reads (tr : list event) : list Boto3.error :=
  flat_map (fun e => match e with
                     | EvDescribeInstances _ (inl err) => [err]
                     | EvDescribeInstanceAttribute _ _ (inl err) => [err]
                     | _ => []
                     end) tr.

(** How a run stands with its read calls: none raised, or exactly one
    did, it is the last event of the run, and the run raised its error. *)
Definition reads_settled {W A : Type} (run : res A * W * list event) : Prop :=
  failed_reads (trace_of run) = []
  \/ exists err before ev,
       trace_of run = (before ++ [ev])%list
       /\ failed_reads before = []
       /\ failed_reads [ev] = [err]
       /\ result_of run = Exn (ProviderExn err).

(** The instances of a list of pages, in order. *)
Definition raw_instances (pages : list Boto3.DescribeInstancesResult)
  : list Boto3.Instance :=
  flat_map (fun page => flat_map Boto3.Instances (Boto3.Reservations page))
           pages.

(** The two attribute reads [get_protections_status] makes for an
    instance. *)
Definition protection_reads (instance_id : string) : list (string * string) :=
  [ ("disableApiTermination", instance_id); ("disableApiStop", instance_id) ].

(** A listing record carries flags the provider answered for its
    instance. *)
Definition flags_read (tr : list event) (info : instance_info) : Prop :=
  In ("disableApiTermination", inst_id info,
      inr (termination_protection info)) (attribute_calls tr)
  /\ In ("disableApiStop", inst_id info,
         inr (stop_protection info)) (attribute_calls tr).

(** The name, id and state [list_instances] records for an instance. *)
Definition summary_of (instance : Boto3.Instance) : string * string * string :=
  (get_tag_value "Name"
     (TagList (match Boto3.Tags instance with Some l => l | None => [] end)),
   Boto3.InstanceId instance,
   Boto3.StateName instance).

Definition summary (info : instance_info) : string * string * string :=
  (inst_name info, inst_id info, inst_state info).

(** The [terminate_instances] calls and the sleeps of a trace, in order. *)
Definition terminate_calls_and_sleeps (tr : list event) : list event :=
  filter (fun e => match e with
                   | EvTerminateInstances _ _ | EvSleep _ => true
                   | _ => false
                   end) tr.

(** The name [create_ami] builds for the image of an instance at a time,
    and the request it sends with it. *)
Definition image_name (instance_id : string) (now : datetime) : string :=
  "EC2DeletionScript_" ++ instance_id ++ "_" ++ strftime_compact now.

Definition image_request (instance : instance_info) (now : datetime)
  : Boto3.CreateImageRequest :=
  {| Boto3.img_InstanceId := inst_id instance;
     Boto3.img_Name := image_name (inst_id instance) now;
     Boto3.img_Description :=
       "AMI created on " ++ strftime_readable now ++ " by EC2 deletion script.";
     Boto3.img_NoReboot := true;
     Boto3.img_DryRun := false |}.

(** The record of a completed backup. *)
Definition completed_backup (instance : instance_info) (now : datetime)
    (image_id : string) : backup_result :=
  {| instance_name := inst_name instance;
     instance_id := inst_id instance;
     ami_id := image_id;
     ami_name := image_name (inst_id instance) now;
     backup_completed := true |}.

(** What [create_ami] does with the answers it gets: the answers of its
    [create_image] calls, the answers of its [create_tags] calls, and its
    result. *)
Definition create_ami_table (instance : instance_info) (now : datetime)
    (images : list (Boto3.error + string))
    (taggings : list (Boto3.error + unit))
    (result : res backup_result) : Prop :=
  match images, taggings with
  | [inr image_id], [inr _]
  | [inl (Boto3.ClientError _); inr image_id], [inr _] =>
      result = Val (completed_backup instance now image_id)
  | [inr _], [inl err]
  | [inl (Boto3.ClientError _); inr _], [inl err] =>
      result = Exn (ProviderExn err)
  | [inl (Boto3.OtherError msg)], []
  | [inl (Boto3.ClientError _); inl (Boto3.OtherError msg)], [] =>
      result = Exn (ProviderExn (Boto3.OtherError msg))
  | [inl (Boto3.ClientError _); inl (Boto3.ClientError _)], [] =>
      result = Exn (UnboundLocalError "ami_id")
  | _, _ => False
  end.

(** The events of the backup stage and of the termination stage. *)
Definition backup_event (e : event) : Prop :=
  match e with
  | EvNow _ | EvPrint _ | EvSleep _ | EvCreateImage _ _ | EvCreateTags _ _ _ =>
      True
  | _ => False
  end.

Definition terminate_event (e : event) : Prop :=
  match e with
  | EvPrint _ | EvSleep _ | EvTerminateInstances _ _ => True
  | _ => False
  end.

(** Calls made one after the other until one raises: [calls] are the
    [expected] requests, all answered, or the requests up to the first one
    that raised [failure]. *)
Definition made_until_failure {Req : Type}
    (expected : list Req) (calls : list (Req * (Boto3.error + unit)))
    (failure : option Boto3.error) : Prop :=
  match failure with
  | None => calls = map (fun req => (req, inr tt)) expected
  | Some err =>
      exists before req after,
        expected = (before ++ req :: after)%list
        /\ calls = (map (fun req => (req, inr tt)) before ++ [(req, inl err)])%list
  end.

(** The two requests that clear the protections of an instance. *)
Definition clear_requests (instance_id : string)
  : list (string * string * bool) :=
  [ (instance_id, "DisableApiTermination", false);
    (instance_id, "DisableApiStop", false) ].

(** An event that is neither a [create_image] nor a [terminate_instances]
    call. *)
Definition neutral (e : event) : Prop :=
  match e with
  | EvCreateImage _ _ | EvTerminateInstances _ _ => False
  | _ => True
  end.

(** An event that is no call of the backup stage, and one that is no
    termination call. *)
Definition not_backup_or_terminate (e : event) : Prop :=
  match e with
  | EvCreateImage _ _ | EvCreateTags _ _ _ | EvTerminateInstances _ _ => False
  | _ => True
  end.

Definition not_terminate (e : event) : Prop :=
  match e with
  | EvTerminateInstances _ _ => False
  | _ => True
  end.

(** A trace in which nothing but [quiet] events happens before the operator
    is asked [prompt]. *)
Definition gated (quiet : event -> Prop) (prompt : string) (tr : list event)
  : Prop :=
  exists before after,
    tr = (before ++ after)%list
    /\ Forall quiet before
    /\ (after = [] \/ exists reply rest, after = EvInput prompt reply :: rest).

(** A trace in which every termination call is for one instance, and a
    [create_image] call for that instance returned an image. *)
Definition backed_up (tr : list event) : Prop :=
  forall ids r,
    In (ids, r) (terminate_calls tr) ->
    exists req image_id,
      ids = [Boto3.img_InstanceId req]
      /\ In (req, inr image_id) (image_calls tr).

(** The termination calls of a trace are for instances of a list of backup
    records. *)
Definition targets (results : list backup_result) (e : event) : Prop :=
  match e with
  | EvTerminateInstances ids _ =>
      In ids (map (fun result => [instance_id result]) results)
  | EvCreateImage _ _ => False
  | _ => True
  end.

(** An event that is no attribute change and no protection question. *)
Definition guard_free (e : event) : Prop :=
  match e with
  | EvModifyInstanceAttribute _ _ _ _ => False
  | EvInput prompt _ => prompt <> protections_prompt
  | _ => True
  end.

Definition not_modify (e : event) : Prop :=
  match e with
  | EvModifyInstanceAttribute _ _ _ _ => False
  | _ => True
  end.

(** The questions a trace asks the operator, in order. *)
Definition prompts (tr : list event) : list string :=
  flat_map (fun e => match e with
                     | EvInput prompt _ => [prompt]
                     | _ => []
                     end) tr.

Definition silent (e : event) : Prop := is_input e = false.

(** [asked] is the beginning of [script]. *)
Definition begins {A : Type} (asked script : list A) : Prop :=
  exists rest, script = (asked ++ rest)%list.

(** The ids of the instances in a state [list_instances] keeps, among the
    pages a trace received. *)
Definition listed_ids (tr : list event) : list string :=
  map Boto3.InstanceId
      (filter (fun i => actionable (Boto3.StateName i))
              (raw_instances (pages_received tr))).

(** A [create_image] call for an instance of [listed]; any other event. *)
Definition image_in (listed : list string) (e : event) : Prop :=
  match e with
  | EvCreateImage req _ => In (Boto3.img_InstanceId req) listed
  | _ => True
  end.

(** Every [create_image] call of the trace is for an instance that is in
    [listed] or that a page received earlier in the trace shows in a state
    [list_instances] keeps. *)
Fixpoint images_listed (listed : list string) (tr : list event) : Prop :=
  match tr with
  | [] => True
  | e :: rest =>
      image_in listed e
      /\ images_listed (listed ++ listed_ids [e])%list rest
  end.

(** A block that, started when the instances of [L] are listed, images only
    listed instances, and whose result satisfies [Q] with the instances
    listed when it returns. *)
Definition yields {W A : Type} (L : list string) (m : M W A)
    (Q : A -> list string -> Prop) : Prop :=
  forall w,
    images_listed L (trace_of (m w))
    /\ forall a, result_of (m w) = Val a ->
                 Q a (L ++ listed_ids (trace_of (m w)))%list.



(** ** A scripted world

    A world that answers each kind of call from a queue of prepared answers,
    and with a default once the queue is empty.  It runs the script on
    concrete scenarios. *)

Module Scripted.

Record world := {
  pages : list (Boto3.error + Boto3.DescribeInstancesResult);
  attributes : list (Boto3.error + bool);
  modifications : list (Boto3.error + unit);
  images : list (Boto3.error + string);
  taggings : list (Boto3.error + unit);
  terminations : list (Boto3.error + Boto3.TerminateInstancesResult);
  replies : list string;
  clock : datetime
}.

Definition last_page : Boto3.DescribeInstancesResult :=
  {| Boto3.Reservations := []; Boto3.NextToken := None |}.

Definition shutting_down : Boto3.TerminateInstancesResult :=
  {| Boto3.TerminatingInstances :=
       [ {| Boto3.CurrentStateName := "shutting-down" |} ] |}.

Definition pop {A : Type} (default : A) (queue : list A) : A * list A :=
  match queue with
  | [] => (default, [])
  | x :: rest => (x, rest)
  end.

Definition client : Boto3.Client world :=
  {| Boto3.describe_instances := fun _ w =>
       let '(x, q) := pop (inr last_page) (pages w) in
       (x, {| pages := q; attributes := attributes w;
              modifications := modifications w; images := images w;
              taggings := taggings w; terminations := terminations w;
              replies := replies w; clock := clock w |});
     Boto3.describe_instance_attribute := fun _ _ w =>
       let '(x, q) := pop (inr false) (attributes w) in
       (x, {| pages := pages w; attributes := q;
              modifications := modifications w; images := images w;
              taggings := taggings w; terminations := terminations w;
              replies := replies w; clock := clock w |});
     Boto3.modify_instance_attribute := fun _ _ _ w =>
       let '(x, q) := pop (inr tt) (modifications w) in
       (x, {| pages := pages w; attributes := attributes w;
              modifications := q; images := images w;
              taggings := taggings w; terminations := terminations w;
              replies := replies w; clock := clock w |});
     Boto3.create_image := fun _ w =>
       let '(x, q) := pop (inr "ami-default") (images w) in
       (x, {| pages := pages w; attributes := attributes w;
              modifications := modifications w; images := q;
              taggings := taggings w; terminations := terminations w;
              replies := replies w; clock := clock w |});
     Boto3.create_tags := fun _ _ w =>
       let '(x, q) := pop (inr tt) (taggings w) in
       (x, {| pages := pages w; attributes := attributes w;
              modifications := modifications w; images := images w;
              taggings := q; terminations := terminations w;
              replies := replies w; clock := clock w |});
     Boto3.terminate_instances := fun _ w =>
       let '(x, q) := pop (inr shutting_down) (terminations w) in
       (x, {| pages := pages w; attributes := attributes w;
              modifications := modifications w; images := images w;
              taggings := taggings w; terminations := q;
              replies := replies w; clock := clock w |}) |}.

Definition host : Host world :=
  {| host_now := fun w => (clock w, w);
     host_sleep := fun _ w => w;
     host_input := fun _ w =>
       let '(x, q) := pop EmptyString (replies w) in
       (x, {| pages := pages w; attributes := attributes w;
              modifications := modifications w; images := images w;
              taggings := taggings w; terminations := terminations w;
              replies := q; clock := clock w |}) |}.

Definition noon : datetime :=
  {| year := 2023; month := 1; day := 5;
     hour := 12; minute := 0; second := 7 |}.

(** A world with nothing prepared: every call gets its default answer. *)
Definition quiet : world :=
  {| pages := []; attributes := []; modifications := []; images := [];
     taggings := []; terminations := []; replies := []; clock := noon |}.

Definition page (ids : list (string * string)) (token : option string)
  : Boto3.DescribeInstancesResult :=
  {| Boto3.Reservations :=
       [ {| Boto3.Instances :=
              map (fun p => {| Boto3.InstanceId := fst p;
                               Boto3.StateName := snd p;
                               Boto3.Tags := None |}) ids |} ];
     Boto3.NextToken := token |}.

Definition web : instance_info :=
  {| inst_name := "web"; inst_id := "i-1"; inst_state := "running";
     termination_protection := false; stop_protection := false |}.

Definition db : instance_info :=
  {| inst_name := "db"; inst_id := "i-2"; inst_state := "stopped";
     termination_protection := false; stop_protection := false |}.

Definition throttled : Boto3.error := Boto3.ClientError "RequestLimitExceeded".

(** Scenarios: what the provider and the operator will answer. *)

(** Both [create_image] calls for the first instance are rejected. *)
Definition rejected_twice : world :=
  {| pages := []; attributes := []; modifications := [];
     images := [inl throttled; inl throttled];
     taggings := []; terminations := []; replies := []; clock := noon |}.

(** The first instance is imaged; both calls for the second are
    rejected. *)
Definition second_rejected_twice : world :=
  {| pages := []; attributes := []; modifications := [];
     images := [inr "ami-1"; inl throttled; inl throttled];
     taggings := []; terminations := []; replies := []; clock := noon |}.

(** The image is created; tagging it is rejected. *)
Definition tagging_rejected : world :=
  {| pages := []; attributes := []; modifications := []; images := [];
     taggings := [inl throttled];
     terminations := []; replies := []; clock := noon |}.

(** The listing comes in two pages. *)
Definition two_pages : world :=
  {| pages := [ inr (page [("i-1", "running")] (Some "token-1"));
                inr (page [("i-2", "stopped")] None) ];
     attributes := []; modifications := []; images := [];
     taggings := []; terminations := []; replies := []; clock := noon |}.

(** One running instance with termination protection; the operator
    answers "n". *)
Definition protected_refused : world :=
  {| pages := [ inr (page [("i-1", "running")] None) ];
     attributes := [inr true; inr false];
     modifications := []; images := [];
     taggings := []; terminations := []; replies := ["n"]; clock := noon |}.

Definition protected_web : instance_info :=
  {| inst_name := "N/A"; inst_id := "i-1"; inst_state := "running";
     termination_protection := true; stop_protection := false |}.

(** Two instances are listed; the first is imaged, both [create_image]
    calls for the second are rejected. *)
Definition listed_second_rejected : world :=
  {| pages := [ inr (page [("i-1", "running"); ("i-2", "stopped")] None) ];
     attributes := []; modifications := [];
     images := [inr "ami-1"; inl throttled; inl throttled];
     taggings := []; terminations := []; replies := []; clock := noon |}.

(** One page with a running and a terminated instance. *)
Definition mixed_states : world :=
  {| pages := [ inr (page [("i-1", "running"); ("i-3", "terminated")] None) ];
     attributes := [inr false; inr true];
     modifications := []; images := [];
     taggings := []; terminations := []; replies := []; clock := noon |}.

(** One running instance with termination protection; the operator
    answers "Y". *)
Definition protected_affirmed : world :=
  {| pages := [ inr (page [("i-1", "running")] None) ];
     attributes := [inr true; inr false];
     modifications := []; images := [];
     taggings := []; terminations := []; replies := ["Y"]; clock := noon |}.

Definition not_found : Boto3.error :=
  Boto3.ClientError "InvalidInstanceID.NotFound".

(** One page with a terminated instance and a running one; the first
    attribute read is rejected. *)
Definition terminated_unreadable : world :=
  {| pages := [ inr (page [("i-3", "terminated"); ("i-1", "running")] None) ];
     attributes := [inl not_found];
     modifications := []; images := [];
     taggings := []; terminations := []; replies := []; clock := noon |}.

End Scripted.

(** ** Pages of a listing

    [pagination w page rest w'] : from the world [w], after the answer
    [page], the provider hands out the pages [rest] to the continuation
    calls of [list_instances], the last of them without a token, and leaves
    the world [w']. *)

Section Pagination.

Context {W : Type}.
Variable ec2_client : Boto3.Client W.

Inductive pagination
  : W -> Boto3.DescribeInstancesResult ->
    list Boto3.DescribeInstancesResult -> W -> Prop :=
| pagination_last : forall w page,
    Boto3.NextToken page = None ->
    pagination w page [] w
| pagination_more : forall w page token next w1 rest w2,
    Boto3.NextToken page = Some token ->
    Boto3.describe_instances ec2_client
      {| Boto3.req_Filters := None; Boto3.req_NextToken := Some token |} w
    = (inr next, w1) ->
    pagination w1 next rest w2 ->
    pagination w page (next :: rest) w2.

End Pagination.

(** ** Facts about runs *)

Section Runs.

Context {W : Type}.
Variable ec2_client : Boto3.Client W.
Variable host : Host W.

Local Open Scope list_scope.

Lemma bind_val {A B : Type} (m : M W A) (f : A -> M W B) w a w1 t1 :
  m w = (Val a, w1, t1) ->
  bind m f w
  = (result_of (f a w1), world_of (f a w1), t1 ++ trace_of (f a w1)).
Proof.
  intros E. unfold bind. rewrite E.
  destruct (f a w1) as [[r w2] t2]. reflexivity.
Qed.

Lemma bind_exn {A B : Type} (m : M W A) (f : A -> M W B) w e w1 t1 :
  m w = (Exn e, w1, t1) -> bind m f w = (Exn e, w1, t1).
Proof. intros E. unfold bind. rewrite E. reflexivity. Qed.

Lemma bind_out_of_fuel {A B : Type} (m : M W A) (f : A -> M W B) w w1 t1 :
  m w = (OutOfFuel, w1, t1) -> bind m f w = (OutOfFuel, w1, t1).
Proof. intros E. unfold bind. rewrite E. reflexivity. Qed.

Lemma terminate_calls_app t1 t2 :
  terminate_calls (t1 ++ t2) = terminate_calls t1 ++ terminate_calls t2.
Proof. apply flat_map_app. Qed.

Lemma describe_calls_app t1 t2 :
  describe_calls (t1 ++ t2) = describe_calls t1 ++ describe_calls t2.
Proof. apply flat_map_app. Qed.

Lemma failed_taggings_app t1 t2 :
  failed_taggings (t1 ++ t2) = failed_taggings t1 ++ failed_taggings t2.
Proof. apply flat_map_app. Qed.

(** *** The termination stage *)

(** One pass of the loop body: it always appends one record for the
    instance, makes one call for that instance alone, and records [true]
    exactly when the call showed "shutting-down". *)
Lemma terminate_instance_run instance results w :
  exists r status,
    result_of (terminate_instance ec2_client host instance results w)
    = Val (results ++
           [ {| term_instance_name := instance_name instance;
                term_instance_id := instance_id instance;
                terminate_completed := status |} ])
    /\ terminate_calls
         (trace_of (terminate_instance ec2_client host instance results w))
       = [([instance_id instance], r)]
    /\ (status = true <-> observed_state r = Some "shutting-down").
Proof.
  unfold terminate_instance, try_except, bind, print, sleep, lift,
    ec2_terminate_instances, client_call, first_item, observed_state.
  destruct (Boto3.terminate_instances ec2_client [instance_id instance] w)
    as [[err | response] w1]; cbn.
  - exists (inl err), false. repeat split; intros; discriminate.
  - destruct (Boto3.TerminatingInstances response) as [| change others] eqn:E;
      cbn.
    + exists (inr response), false. rewrite E.
      repeat split; intros; discriminate.
    + destruct (Boto3.CurrentStateName change =? "shutting-down") eqn:S; cbn.
      * exists (inr response), true. rewrite E.
        apply String.eqb_eq in S. rewrite S. repeat split; reflexivity.
      * exists (inr response), false. rewrite E.
        apply String.eqb_neq in S.
        repeat split; try discriminate.
        intros H. injection H as H. contradiction.
Qed.

(** The whole loop: one record per element, in order, one call each. *)
Lemma terminate_loop_run instances : forall results w,
  exists outs,
    result_of (for_each instances (terminate_instance ec2_client host) results w)
    = Val (results ++ outs)
    /\ Forall2 (fun i o => term_instance_name o = instance_name i
                           /\ term_instance_id o = instance_id i)
               instances outs
    /\ map fst (terminate_calls
                  (trace_of (for_each instances
                               (terminate_instance ec2_client host) results w)))
       = map (fun i => [instance_id i]) instances
    /\ Forall2 (fun o c => terminate_completed o = true
                           <-> observed_state (snd c) = Some "shutting-down")
               outs
               (terminate_calls
                  (trace_of (for_each instances
                               (terminate_instance ec2_client host) results w))).
Proof.
  induction instances as [| instance rest IH]; intros results w.
  - exists []. cbn. rewrite app_nil_r. repeat split; constructor.
  - destruct (terminate_instance_run instance results w)
      as (r & status & Hres & Hcalls & Hiff).
    destruct (terminate_instance ec2_client host instance results w)
      as [[r0 w1] t1] eqn:E.
    cbn [result_of trace_of fst snd] in Hres, Hcalls. subst r0.
    cbn [for_each]. rewrite (bind_val _ _ _ _ _ _ E).
    cbn [result_of trace_of fst snd].
    match goal with
    | |- context [for_each rest _ ?acc ?w1] =>
        destruct (IH acc w1) as (outs & Hr & Hnames & Hids & Hstates)
    end.
    eexists (_ :: outs).
    rewrite Hr, terminate_calls_app, Hcalls, <- app_assoc. cbn [app].
    split; [reflexivity |].
    split; [constructor; [split; reflexivity | exact Hnames] |].
    split; [cbn; f_equal; exact Hids |].
    constructor; [exact Hiff | exact Hstates].
Qed.

(** *** The backup stage *)

(** Case analysis on the answers [create_ami] gets: the clock, the first
    [create_image], the retry when there is one, and [create_tags]. *)
Ltac create_ami_cases w :=
  unfold create_ami, try_except, bind, print, sleep, read_local, raise, ret,
    datetime_now, ec2_create_image, ec2_create_tags, client_call;
  destruct (host_now host w) as [?now ?w];
  repeat match goal with
    | |- context [Boto3.create_image ?c ?req ?w0] =>
        destruct (Boto3.create_image c req w0) as [[[?msg | ?msg] | ?ami] ?w];
        cbn [is_ClientError]
    | |- context [Boto3.create_tags ?c ?rs ?ts ?w0] =>
        destruct (Boto3.create_tags c rs ts w0) as [[?err | []] ?w]
    end;
  cbn [result_of trace_of fst snd app].

(** The [create_image] calls and sleeps of one [create_ami]: one call, or
    when the first call raised [ClientError], the same call again after a
    sleep of 5. *)
Lemma create_ami_attempts instance w :
  exists req r1,
    (image_calls_and_sleeps (trace_of (create_ami ec2_client host instance w))
     = [EvCreateImage req r1]
     /\ forall msg, r1 <> inl (Boto3.ClientError msg))
    \/ (exists msg r2,
          r1 = inl (Boto3.ClientError msg)
          /\ image_calls_and_sleeps
               (trace_of (create_ami ec2_client host instance w))
             = [EvCreateImage req r1; EvSleep 5; EvCreateImage req r2]).
Proof.
  create_ami_cases w.
  all: do 2 eexists; cbn;
    first [ left; split; [reflexivity | intros; discriminate]
          | right; do 2 eexists; split; reflexivity ].
Qed.

(** A [create_tags] call that raises makes [create_ami] raise the same
    error. *)
Lemma create_ami_failed_tagging instance w err :
  In err (failed_taggings (trace_of (create_ami ec2_client host instance w))) ->
  result_of (create_ami ec2_client host instance w) = Exn (ProviderExn err).
Proof.
  create_ami_cases w.
  all: cbn; intros H; repeat destruct H as [H | H]; try contradiction;
    subst; reflexivity.
Qed.

(** Whatever [create_ami] returns is a record of a completed backup of the
    instance, and no [create_tags] call of the run raised. *)
Lemma create_ami_returned instance w result :
  result_of (create_ami ec2_client host instance w) = Val result ->
  backup_completed result = true
  /\ instance_id result = inst_id instance
  /\ instance_name result = inst_name instance
  /\ failed_taggings (trace_of (create_ami ec2_client host instance w)) = [].
Proof.
  create_ami_cases w.
  all: cbn; intros H; try discriminate; injection H as <-;
    repeat split; reflexivity.
Qed.

(** [create_ami] never runs out of fuel: it has no unbounded loop. *)
Lemma create_ami_terminates instance w :
  result_of (create_ami ec2_client host instance w) <> OutOfFuel.
Proof. create_ami_cases w. all: cbn; discriminate. Qed.

(** Two [ClientError]s in a row: the [return] of the second handler raises
    [UnboundLocalError]. *)
Lemma create_ami_rejected_twice instance w req1 req2 msg1 msg2 :
  image_calls (trace_of (create_ami ec2_client host instance w))
  = [(req1, inl (Boto3.ClientError msg1)); (req2, inl (Boto3.ClientError msg2))] ->
  result_of (create_ami ec2_client host instance w)
  = Exn (UnboundLocalError "ami_id").
Proof.
  create_ami_cases w.
  all: cbn; intros H; try discriminate; reflexivity.
Qed.

Lemma backup_instance_run instance results w :
  backup_instance ec2_client host instance results w
  = (match result_of (create_ami ec2_client host instance w) with
     | Val result => Val (results ++ [result])
     | Exn e => Exn e
     | OutOfFuel => OutOfFuel
     end,
     world_of (create_ami ec2_client host instance w),
     trace_of (create_ami ec2_client host instance w)).
Proof.
  unfold backup_instance, bind, ret.
  destruct (create_ami ec2_client host instance w) as [[[result | e |] w1] t1];
    cbn; rewrite ?app_nil_r; reflexivity.
Qed.

(** One step of the loop of [backup_instances], by what [create_ami]
    returned. *)
Lemma backup_loop_step instance rest results w :
  for_each (instance :: rest) (backup_instance ec2_client host) results w
  = match result_of (create_ami ec2_client host instance w) with
    | Val result =>
        let next := for_each rest (backup_instance ec2_client host) (results ++ [result])
                      (world_of (create_ami ec2_client host instance w)) in
        (result_of next, world_of next,
         trace_of (create_ami ec2_client host instance w) ++ trace_of next)
    | Exn e =>
        (Exn e, world_of (create_ami ec2_client host instance w),
         trace_of (create_ami ec2_client host instance w))
    | OutOfFuel =>
        (OutOfFuel, world_of (create_ami ec2_client host instance w),
         trace_of (create_ami ec2_client host instance w))
    end.
Proof.
  cbn [for_each].
  pose proof (backup_instance_run instance results w) as Hbody.
  destruct (result_of (create_ami ec2_client host instance w))
    as [result | e |].
  - rewrite (bind_val _ _ _ _ _ _ Hbody). reflexivity.
  - rewrite (bind_exn _ _ _ _ _ _ Hbody). reflexivity.
  - rewrite (bind_out_of_fuel _ _ _ _ _ Hbody). reflexivity.
Qed.

(** When the loop returns, it returns one completed record per instance,
    in order. *)
Lemma backup_loop_returned instances : forall results w all,
  result_of (for_each instances (backup_instance ec2_client host) results w) = Val all ->
  exists outs,
    all = results ++ outs
    /\ map instance_id outs = map inst_id instances
    /\ map instance_name outs = map inst_name instances
    /\ Forall (fun o => backup_completed o = true) outs.
Proof.
  induction instances as [| instance rest IH]; intros results w all.
  - cbn. intros H. injection H as <-. exists [].
    rewrite app_nil_r. repeat split; constructor.
  - rewrite backup_loop_step.
    destruct (result_of (create_ami ec2_client host instance w))
      as [result | e |] eqn:E; try discriminate.
    destruct (create_ami_returned _ _ _ E) as (Hdone & Hid & Hname & _).
    cbn [result_of fst]. intros H.
    destruct (IH _ _ _ H) as (outs & -> & Hids & Hnames & Hall).
    exists (result :: outs). rewrite <- app_assoc. cbn.
    repeat split; try congruence. constructor; assumption.
Qed.

(** A [create_tags] call that raises anywhere in the loop makes the loop
    raise the same error. *)
Lemma backup_loop_failed_tagging instances : forall results w err,
  In err (failed_taggings
            (trace_of (for_each instances (backup_instance ec2_client host)
                         results w))) ->
  result_of (for_each instances (backup_instance ec2_client host) results w)
  = Exn (ProviderExn err).
Proof.
  induction instances as [| instance rest IH]; intros results w err.
  - cbn. contradiction.
  - rewrite backup_loop_step.
    pose proof (create_ami_failed_tagging instance w err) as Hfail.
    destruct (result_of (create_ami ec2_client host instance w))
      as [result | e |] eqn:E; cbn [trace_of result_of fst snd].
    + destruct (create_ami_returned _ _ _ E) as (_ & _ & _ & Hnone).
      rewrite failed_taggings_app, Hnone. apply IH.
    + intros H. specialize (Hfail H). injection Hfail as ->. reflexivity.
    + intros H. specialize (Hfail H). discriminate.
Qed.

(** *** Events of a run *)

Lemma result_bind_val {A B : Type} (m : M W A) (f : A -> M W B) w a w1 t1 :
  m w = (Val a, w1, t1) -> result_of (bind m f w) = result_of (f a w1).
Proof. intros E. rewrite (bind_val _ _ _ _ _ _ E). reflexivity. Qed.

Lemma trace_bind_val {A B : Type} (m : M W A) (f : A -> M W B) w a w1 t1 :
  m w = (Val a, w1, t1) -> trace_of (bind m f w) = t1 ++ trace_of (f a w1).
Proof. intros E. rewrite (bind_val _ _ _ _ _ _ E). reflexivity. Qed.

Lemma trace_bind_all {A B : Type} (P : event -> Prop)
    (m : M W A) (f : A -> M W B) w :
  Forall P (trace_of (m w)) ->
  (forall a w1, Forall P (trace_of (f a w1))) ->
  Forall P (trace_of (bind m f w)).
Proof.
  intros Hm Hf. unfold bind.
  destruct (m w) as [[[a | e |] w1] t1]; cbn in *; try assumption.
  specialize (Hf a w1). destruct (f a w1) as [[r w2] t2]. cbn in *.
  apply Forall_app. split; assumption.
Qed.

Lemma trace_for_each_all {A S : Type} (P : event -> Prop)
    (body : A -> S -> M W S) (l : list A) :
  (forall x s w, Forall P (trace_of (body x s w))) ->
  forall s w, Forall P (trace_of (for_each l body s w)).
Proof.
  intros Hbody. induction l as [| x rest IH]; intros s w; cbn [for_each].
  - constructor.
  - apply trace_bind_all; [apply Hbody | intros; apply IH].
Qed.

Lemma trace_client_call_all {A : Type} (P : event -> Prop)
    (call : W -> (Boto3.error + A) * W) (ev : Boto3.error + A -> event) w :
  (forall x, P (ev x)) -> Forall P (trace_of (client_call call ev w)).
Proof.
  intros H. unfold client_call. destruct (call w) as [x w1]. cbn.
  constructor; [apply H | constructor].
Qed.

Lemma listing_harmless e :
  listing e -> mutating e = false /\ is_input e = false.
Proof. destruct e; cbn; intros H; try contradiction; split; reflexivity. Qed.

Lemma next_pages_listing fuel : forall response reservations w,
  Forall listing
    (trace_of (next_pages ec2_client fuel response reservations w)).
Proof.
  induction fuel as [| fuel IH]; intros response reservations w; cbn;
    destruct (Boto3.NextToken response); try constructor.
  apply trace_bind_all.
  - apply trace_client_call_all. intros; exact I.
  - intros; apply IH.
Qed.

Lemma list_instance_reads instance instances w :
  Forall attribute_read
    (trace_of (list_instance ec2_client instance instances w)).
Proof.
  unfold list_instance, get_protections_status.
  apply trace_bind_all.
  - apply trace_bind_all;
      [apply trace_client_call_all; intros; exact I | intros].
    apply trace_bind_all;
      [apply trace_client_call_all; intros; exact I | intros].
    constructor.
  - intros. destruct (actionable (Boto3.StateName instance)); constructor.
Qed.

Lemma list_instance_listing instance instances w :
  Forall listing (trace_of (list_instance ec2_client instance instances w)).
Proof.
  eapply Forall_impl; [| apply list_instance_reads].
  intros [] H; cbn in *; try contradiction; exact I.
Qed.

(** The listing makes read calls only. *)
Lemma list_instances_listing fuel tags w :
  Forall listing (trace_of (list_instances ec2_client fuel tags w)).
Proof.
  unfold list_instances.
  apply trace_bind_all; [apply trace_client_call_all; intros; exact I |].
  intros response w1.
  apply trace_bind_all; [apply next_pages_listing |].
  intros reservations w2.
  apply trace_for_each_all. intros reservation instances w3.
  apply trace_for_each_all. intros. apply list_instance_listing.
Qed.

(** [display_data] returns, leaves the world alone and shows at most one
    table. *)
Lemma display_data_run data (w : W) :
  exists tr,
    display_data data w = (Val tt, w, tr)
    /\ Forall (fun e => mutating e = false /\ is_input e = false) tr.
Proof.
  unfold display_data.
  destruct (table_of data) as [e | [headers rows]].
  - exists []. split; [reflexivity | constructor].
  - eexists. split; [reflexivity |].
    constructor; [split; reflexivity | constructor].
Qed.

(** The loop with [break] of [main] finds a protection exactly when some
    record has one. *)
Lemma any_protection_exists instances :
  any_protection instances = true
  <-> Exists (fun i => termination_protection i = true
                       \/ stop_protection i = true) instances.
Proof.
  induction instances as [| i rest IH]; cbn.
  - split; [discriminate | intros H; inversion H].
  - destruct (termination_protection i) eqn:T, (stop_protection i) eqn:S;
      cbn; try (split; [intros _; left; auto | reflexivity]).
    rewrite IH. split.
    + intros H. right. exact H.
    + intros H. inversion H as [? ? [H1 | H1] | ? ? H1]; subst;
        [congruence | congruence | exact H1].
Qed.

(** ** Properties of every run, whatever the client and the host *)

(** C7. A backup creation that fails with [ClientError] (the transient
    provider error of the script) is retried exactly once, after a sleep of
    5, with the same request (same name and description); a creation that
    does not fail so is not retried; and [terminate_instances] makes
    exactly one termination call per element of its input, whatever the
    calls answer. *)
Theorem backup_retried_once_termination_never :
  (forall instance w,
      exists req r1,
        (image_calls_and_sleeps
           (trace_of (create_ami ec2_client host instance w))
         = [EvCreateImage req r1]
         /\ forall msg, r1 <> inl (Boto3.ClientError msg))
        \/ (exists msg r2,
              r1 = inl (Boto3.ClientError msg)
              /\ image_calls_and_sleeps
                   (trace_of (create_ami ec2_client host instance w))
                 = [EvCreateImage req r1; EvSleep 5; EvCreateImage req r2]))
  /\ (forall instances w,
         map fst (terminate_calls
                    (trace_of (terminate_instances ec2_client host instances w)))
         = map (fun i => [instance_id i]) instances).
Proof.
  split.
  - apply create_ami_attempts.
  - intros instances w. unfold terminate_instances.
    destruct (terminate_loop_run instances [] w) as (outs & _ & _ & H & _).
    exact H.
Qed.


(** C10. [terminate_instances] returns exactly one record per element of
    its input, in the same order, each with the element's instance name
    and id; an element whose termination call raised has its record too,
    with [terminate_completed = false]. *)
Theorem terminate_instances_one_record_each instances w :
  exists results,
    result_of (terminate_instances ec2_client host instances w) = Val results
    /\ List.length results = List.length instances
    /\ Forall2 (fun i o => term_instance_name o = instance_name i
                           /\ term_instance_id o = instance_id i)
               instances results
    /\ Forall2 (fun o c => forall err, snd c = inl err ->
                                       terminate_completed o = false)
               results
               (terminate_calls
                  (trace_of (terminate_instances ec2_client host instances w))).
Proof.
  unfold terminate_instances.
  destruct (terminate_loop_run instances [] w) as (outs & Hr & Hn & _ & Hs).
  exists outs. split; [exact Hr |].
  split; [symmetry; eapply Forall2_length; exact Hn |].
  split; [exact Hn |].
  eapply Forall2_impl; [| exact Hs].
  intros o c Hiff err Herr. cbn beta in Hiff.
  destruct (terminate_completed o); [| reflexivity].
  destruct Hiff as [H _]. specialize (H eq_refl).
  rewrite Herr in H. discriminate.
Qed.

(** *** The orchestration *)

Lemma trace_bind_prefix {A B : Type} (m : M W A) (f : A -> M W B) w :
  exists rest, trace_of (bind m f w) = trace_of (m w) ++ rest.
Proof.
  unfold bind. destruct (m w) as [[[a | e |] w1] t1]; cbn.
  - destruct (f a w1) as [[r w2] t2]. exists t2. reflexivity.
  - exists []. rewrite app_nil_r. reflexivity.
  - exists []. rewrite app_nil_r. reflexivity.
Qed.

(** C9. When the first listing returns no instance, [main] returns right
    after printing the count: its events are the two opening prints, the
    read calls of the listing and the print of the total, so it asks
    nothing of the operator and makes no mutating call. *)
Theorem main_empty_listing_ends fuel w :
  result_of (list_instances ec2_client fuel main_tags w) = Val [] ->
  result_of (main ec2_client host fuel w) = Val tt
  /\ trace_of (main ec2_client host fuel w)
     = [EvPrint "Starting EC2 deletion script...";
        EvPrint (newline ++ "Listing instances..." ++ newline)%string]
       ++ trace_of (list_instances ec2_client fuel main_tags w)
       ++ [EvPrint (newline ++ "Total: 0")%string]
  /\ Forall (fun e => mutating e = false /\ is_input e = false)
            (trace_of (main ec2_client host fuel w)).
Proof.
  intros H.
  pose proof (list_instances_listing fuel main_tags w) as Hread.
  destruct (list_instances ec2_client fuel main_tags w) as [[r w1] t1] eqn:E.
  cbn [result_of trace_of fst snd] in H, Hread. subst r.
  assert (Hrun : main ec2_client host fuel w
                 = (Val tt, w1,
                    [EvPrint "Starting EC2 deletion script...";
                     EvPrint (newline ++ "Listing instances..." ++ newline)%string]
                    ++ t1 ++ [EvPrint (newline ++ "Total: 0")%string])).
  { unfold main, bind, print. rewrite E. cbn. reflexivity. }
  rewrite Hrun. cbn [result_of trace_of fst snd].
  split; [reflexivity |]. split; [reflexivity |].
  apply Forall_app. split; [repeat constructor |].
  apply Forall_app. split; [| repeat constructor].
  eapply Forall_impl; [| exact Hread]. intros e. apply listing_harmless.
Qed.

(** C4. When the first listing returns a record with a protection flag
    set, [main] asks the operator the protection question before anything
    but prints and read calls; when the reply, lowered, is not "y", the
    run ends with [SystemExit] and its whole trace holds no mutating call
    (no attribute change, no image, no tag, no termination) and no further
    question. *)
Theorem protection_gate fuel w instances :
  result_of (list_instances ec2_client fuel main_tags w) = Val instances ->
  Exists (fun i => termination_protection i = true
                   \/ stop_protection i = true) instances ->
  exists before reply after,
    trace_of (main ec2_client host fuel w)
    = before ++ EvInput protections_prompt reply :: after
    /\ Forall (fun e => mutating e = false /\ is_input e = false) before
    /\ (lower reply <> "y" ->
        result_of (main ec2_client host fuel w) = Exn SystemExit
        /\ Forall (fun e => mutating e = false /\ is_input e = false) after).
Proof.
  intros H Hex.
  apply any_protection_exists in Hex.
  pose proof (list_instances_listing fuel main_tags w) as Hread.
  destruct (list_instances ec2_client fuel main_tags w) as [[r w1] t1] eqn:E.
  cbn [result_of trace_of fst snd] in H, Hread. subst r.
  destruct (display_data_run (map instance_info_dict instances) w1)
    as (tr & Hd & Htr).
  destruct instances as [| i rest]; [discriminate |].
  destruct (host_input host protections_prompt w1) as [reply w2] eqn:Hin.
  assert (Hbefore :
            Forall (fun e => mutating e = false /\ is_input e = false)
                   ([EvPrint "Starting EC2 deletion script...";
                     EvPrint (newline ++ "Listing instances..." ++ newline)%string]
                    ++ t1 ++ tr
                    ++ [EvPrint (newline ++ "Total: "
                                 ++ dec (List.length (i :: rest)))%string;
                        EvPrint (newline ++ "Checking termination protection..."
                                 ++ newline)%string;
                        EvPrint "Found some protections are enabled on some instances."])).
  { apply Forall_app. split; [repeat constructor |].
    apply Forall_app. split.
    - eapply Forall_impl; [| exact Hread]. intros e. apply listing_harmless.
    - apply Forall_app. split; [exact Htr | repeat constructor]. }
  unfold main.
  rewrite (bind_val _ _ w tt w [EvPrint _] eq_refl). cbv zeta.
  cbn [result_of trace_of world_of fst snd].
  rewrite (bind_val _ _ w tt w [EvPrint _] eq_refl).
  cbn [result_of trace_of world_of fst snd].
  rewrite (bind_val _ _ _ _ _ _ E).
  cbn [result_of trace_of world_of fst snd].
  rewrite (bind_val _ _ _ _ _ _ Hd).
  cbn [result_of trace_of world_of fst snd].
  rewrite (bind_val _ _ w1 tt w1 [EvPrint _] eq_refl).
  cbn [result_of trace_of world_of fst snd].
  rewrite (bind_val _ _ w1 tt w1 [EvPrint _] eq_refl).
  cbn [result_of trace_of world_of fst snd].
  rewrite Hex.
  destruct (lower reply =? "y") eqn:Hlow.
  - (* affirmed: the question is still the first thing after the listing *)
    match goal with
    | |- context [trace_of (bind ?m ?f w1)] =>
        destruct (trace_bind_prefix m f w1) as (rest1 & Hprefix)
    end.
    rewrite Hprefix.
    rewrite (trace_bind_val _ _ w1 tt w1 [EvPrint _] eq_refl).
    rewrite (trace_bind_val (input host protections_prompt) _ w1 reply w2
               [EvInput protections_prompt reply])
      by (unfold input; rewrite Hin; reflexivity).
    eexists; exists reply; eexists. split; [| split; [exact Hbefore |]].
    + repeat rewrite <- app_assoc. cbn [app]. reflexivity.
    + intros Hno. apply String.eqb_neq in Hno. congruence.
  - (* refused: [sys.exit()] *)
    match goal with
    | |- context [bind ?m ?f w1] =>
        assert (Hgate : m w1
                        = (Exn SystemExit, w2,
                           [EvPrint "Found some protections are enabled on some instances.";
                            EvInput protections_prompt reply;
                            EvPrint "Come back if you already disabled protections on all instances."]))
    end.
    { unfold bind at 1 2. unfold print at 1. unfold input. rewrite Hin, Hlow.
      reflexivity. }
    rewrite (bind_exn _ _ _ _ _ _ Hgate).
    cbn [result_of trace_of world_of fst snd].
    eexists; exists reply; eexists. split; [| split; [exact Hbefore |]].
    + repeat rewrite <- app_assoc. cbn [app]. reflexivity.
    + intros _. split; [reflexivity | repeat constructor].
Qed.

(** C5, as the code has it.  A [create_tags] call that raises is not
    handled: [create_ami] raises the same error instead of returning a
    record, and [backup_instances] raises it too, returning no list. *)
Theorem tagging_failure_propagates :
  (forall instance w err,
      In err (failed_taggings
                (trace_of (create_ami ec2_client host instance w))) ->
      result_of (create_ami ec2_client host instance w)
      = Exn (ProviderExn err))
  /\ (forall instances w err,
         In err (failed_taggings
                   (trace_of (backup_instances ec2_client host instances w))) ->
         result_of (backup_instances ec2_client host instances w)
         = Exn (ProviderExn err)).
Proof.
  split.
  - apply create_ami_failed_tagging.
  - intros instances w err. apply backup_loop_failed_tagging.
Qed.

(** When [backup_instances] returns, it returns one record per instance,
    in order, and every record is one of a completed backup. *)
Lemma backup_instances_returned instances w results :
  result_of (backup_instances ec2_client host instances w) = Val results ->
  map instance_id results = map inst_id instances
  /\ map instance_name results = map inst_name instances
  /\ Forall (fun o => backup_completed o = true) results.
Proof.
  intros H. destruct (backup_loop_returned _ _ _ _ H) as (outs & -> & Hrest).
  exact Hrest.
Qed.

(** The requests of [list_instances]: the first carries the filter and no
    token; every later [describe_instances] request carries no filter. *)
Lemma next_pages_unfiltered fuel : forall response reservations w,
  Forall unfiltered
    (trace_of (next_pages ec2_client fuel response reservations w)).
Proof.
  induction fuel as [| fuel IH]; intros response reservations w; cbn;
    destruct (Boto3.NextToken response); try constructor.
  apply trace_bind_all.
  - apply trace_client_call_all. intros; reflexivity.
  - intros; apply IH.
Qed.

Lemma list_instance_unfiltered instance instances w :
  Forall unfiltered (trace_of (list_instance ec2_client instance instances w)).
Proof.
  eapply Forall_impl; [| apply list_instance_reads].
  intros [] H; cbn in *; try contradiction; exact I.
Qed.

Lemma list_instances_requests fuel tags w :
  exists answer rest,
    trace_of (list_instances ec2_client fuel tags w)
    = EvDescribeInstances {| Boto3.req_Filters := Some tags;
                             Boto3.req_NextToken := None |} answer :: rest
    /\ Forall unfiltered rest.
Proof.
  unfold list_instances, ec2_describe_instances, client_call.
  unfold bind at 1.
  destruct (Boto3.describe_instances ec2_client _ w) as [[err | response] w1].
  - do 2 eexists. split; [reflexivity | constructor].
  - match goal with
    | |- context [bind ?m ?f w1] =>
        pose proof (trace_bind_all unfiltered m f w1
                      (next_pages_unfiltered _ _ _ _)) as Hrest;
          destruct (bind m f w1) as [[r w2] t2]
    end.
    do 2 eexists. split; [reflexivity |].
    apply Hrest. intros reservations w3.
    apply trace_for_each_all. intros reservation instances w4.
    apply trace_for_each_all. intros. apply list_instance_unfiltered.
Qed.

(** With fuel for every page the provider hands out, the loop of
    [list_instances] returns the reservations of all pages, in order. *)
Lemma next_pages_run w page rest w2 :
  pagination ec2_client w page rest w2 ->
  forall fuel reservations,
    List.length rest <= fuel ->
    result_of (next_pages ec2_client fuel page reservations w)
    = Val (reservations ++ flat_map Boto3.Reservations rest)
    /\ world_of (next_pages ec2_client fuel page reservations w) = w2
    /\ map snd (describe_calls
                  (trace_of (next_pages ec2_client fuel page reservations w)))
       = map inr rest.
Proof.
  induction 1 as [w page Hlast | w page token next w1 rest w2 Htok Hcall _ IH];
    intros fuel reservations Hfuel.
  - destruct fuel; cbn; rewrite Hlast; cbn; rewrite app_nil_r; auto.
  - destruct fuel as [| fuel]; [cbn in Hfuel; lia |].
    cbn [next_pages]. rewrite Htok.
    assert (Hstep : ec2_describe_instances ec2_client
                      {| Boto3.req_Filters := None;
                         Boto3.req_NextToken := Some token |} w
                    = (Val next, w1,
                       [EvDescribeInstances
                          {| Boto3.req_Filters := None;
                             Boto3.req_NextToken := Some token |} (inr next)])).
    { unfold ec2_describe_instances, client_call. rewrite Hcall. reflexivity. }
    rewrite (bind_val _ _ _ _ _ _ Hstep).
    cbn [result_of world_of trace_of fst snd].
    destruct (IH fuel (reservations ++ Boto3.Reservations next))
      as (Hr & Hw & Ht); [cbn in Hfuel; lia |].
    rewrite Hr, Hw, describe_calls_app, map_app, Ht, <- app_assoc.
    repeat split; reflexivity.
Qed.

(** So [list_instances] works on the instances of every page, or on none:
    after the pages it runs its loop over the reservations of all of
    them. *)
Lemma list_instances_all_pages fuel tags w first w1 rest w2 :
  Boto3.describe_instances ec2_client
    {| Boto3.req_Filters := Some tags; Boto3.req_NextToken := None |} w
  = (inr first, w1) ->
  pagination ec2_client w1 first rest w2 ->
  List.length rest <= fuel ->
  result_of (list_instances ec2_client fuel tags w)
  = result_of
      (for_each (flat_map Boto3.Reservations (first :: rest))
         (fun reservation instances =>
            for_each (Boto3.Instances reservation)
              (list_instance ec2_client) instances)
         [] w2).
Proof.
  intros Hfirst Hpages Hfuel. unfold list_instances.
  assert (Hstep : ec2_describe_instances ec2_client
                    {| Boto3.req_Filters := Some tags;
                       Boto3.req_NextToken := None |} w
                  = (Val first, w1,
                     [EvDescribeInstances
                        {| Boto3.req_Filters := Some tags;
                           Boto3.req_NextToken := None |} (inr first)])).
  { unfold ec2_describe_instances, client_call. rewrite Hfirst. reflexivity. }
  rewrite (result_bind_val _ _ _ _ _ _ Hstep).
  destruct (next_pages_run _ _ _ _ Hpages fuel (Boto3.Reservations first) Hfuel)
    as (Hr & Hw & _).
  destruct (next_pages ec2_client fuel first (Boto3.Reservations first) w1)
    as [[r w3] t3] eqn:E.
  cbn [result_of world_of fst snd] in Hr, Hw. subst r w3.
  rewrite (result_bind_val _ _ _ _ _ _ E). reflexivity.
Qed.

End Runs.

(** ** Concrete runs *)

(** C2. When [create_image] raises [ClientError] on the first attempt and
    on the retry, [create_ami] returns no record: building the record reads
    [ami_id] before it is bound and raises [UnboundLocalError]. *)
Theorem create_ami_rejected_twice_raises :
  map snd (image_calls
             (trace_of (create_ami Scripted.client Scripted.host
                          Scripted.web Scripted.rejected_twice)))
  = [inl Scripted.throttled; inl Scripted.throttled]
  /\ result_of (create_ami Scripted.client Scripted.host
                  Scripted.web Scripted.rejected_twice)
     = Exn (UnboundLocalError "ami_id").
Proof. split; reflexivity. Qed.

(** C3. With two instances, the second of which is rejected twice,
    [backup_instances] returns no list at all: the [UnboundLocalError] of
    [create_ami] leaves the loop, and the record of the first instance is
    lost with it. *)
Theorem backup_instances_rejected_twice_raises :
  map snd (image_calls
             (trace_of (backup_instances Scripted.client Scripted.host
                          [Scripted.web; Scripted.db]
                          Scripted.second_rejected_twice)))
  = [inr "ami-1"; inl Scripted.throttled; inl Scripted.throttled]
  /\ result_of (backup_instances Scripted.client Scripted.host
                  [Scripted.web; Scripted.db] Scripted.second_rejected_twice)
     = Exn (UnboundLocalError "ami_id").
Proof. split; reflexivity. Qed.

(** C4 on a run: one protected instance, the operator answers "n". *)
Lemma protection_gate_refused_run :
  result_of (list_instances Scripted.client 1 main_tags Scripted.protected_refused)
  = Val [Scripted.protected_web]
  /\ exists before reply after,
       trace_of (main Scripted.client Scripted.host 1 Scripted.protected_refused)
       = (before ++ EvInput protections_prompt reply :: after)%list
       /\ Forall (fun e => mutating e = false /\ is_input e = false) before
       /\ (lower reply <> "y" ->
           result_of (main Scripted.client Scripted.host 1
                        Scripted.protected_refused)
           = Exn SystemExit
           /\ Forall (fun e => mutating e = false /\ is_input e = false) after).
Proof.
  split; [reflexivity |].
  apply (protection_gate Scripted.client Scripted.host 1
           Scripted.protected_refused [Scripted.protected_web]).
  - reflexivity.
  - constructor. left. reflexivity.
Defined.

(** C5 as stated fails: the image is created, tagging it raises, and
    [create_ami] returns no record, let alone one with
    [backup_completed = true]. *)
Lemma tagging_failure_not_swallowed :
  map snd (image_calls
             (trace_of (create_ami Scripted.client Scripted.host
                          Scripted.web Scripted.tagging_rejected)))
  = [inr "ami-default"]
  /\ failed_taggings
       (trace_of (create_ami Scripted.client Scripted.host
                    Scripted.web Scripted.tagging_rejected))
     = [Scripted.throttled]
  /\ result_of (create_ami Scripted.client Scripted.host
                  Scripted.web Scripted.tagging_rejected)
     = Exn (ProviderExn Scripted.throttled)
  /\ result_of (backup_instances Scripted.client Scripted.host
                  [Scripted.web; Scripted.db] Scripted.tagging_rejected)
     = Exn (ProviderExn Scripted.throttled).
Proof. repeat split; reflexivity. Qed.

(** C5 on a run: the rejected tagging of the first instance. *)
Lemma tagging_failure_propagates_run :
  result_of (create_ami Scripted.client Scripted.host
               Scripted.web Scripted.tagging_rejected)
  = Exn (ProviderExn Scripted.throttled)
  /\ result_of (backup_instances Scripted.client Scripted.host
                  [Scripted.web; Scripted.db] Scripted.tagging_rejected)
     = Exn (ProviderExn Scripted.throttled).
Proof.
  split.
  - apply (proj1 (tagging_failure_propagates Scripted.client Scripted.host)).
    left. reflexivity.
  - apply (proj2 (tagging_failure_propagates Scripted.client Scripted.host)).
    left. reflexivity.
Defined.

(** C6. On a listing of two pages [list_instances] returns the records of
    both pages, but it asks for the second page with the token alone: the
    filter is not passed again. *)
Theorem list_instances_second_page_unfiltered :
  map fst (describe_calls
             (trace_of (list_instances Scripted.client 1 main_tags
                          Scripted.two_pages)))
  = [ {| Boto3.req_Filters := Some main_tags; Boto3.req_NextToken := None |};
      {| Boto3.req_Filters := None; Boto3.req_NextToken := Some "token-1" |} ]
  /\ result_of (list_instances Scripted.client 1 main_tags Scripted.two_pages)
     = Val [ {| inst_name := "N/A"; inst_id := "i-1"; inst_state := "running";
                termination_protection := false; stop_protection := false |};
             {| inst_name := "N/A"; inst_id := "i-2"; inst_state := "stopped";
                termination_protection := false; stop_protection := false |} ].
Proof. split; reflexivity. Qed.

(** C9 on a run: nothing matches the filter. *)
Lemma main_empty_listing_run :
  result_of (main Scripted.client Scripted.host 0 Scripted.quiet) = Val tt
  /\ trace_of (main Scripted.client Scripted.host 0 Scripted.quiet)
     = ([EvPrint "Starting EC2 deletion script...";
         EvPrint (newline ++ "Listing instances..." ++ newline)]
        ++ trace_of (list_instances Scripted.client 0 main_tags Scripted.quiet)
        ++ [EvPrint (newline ++ "Total: 0")])%list
  /\ Forall (fun e => mutating e = false /\ is_input e = false)
            (trace_of (main Scripted.client Scripted.host 0 Scripted.quiet)).
Proof.
  apply (main_empty_listing_ends Scripted.client Scripted.host 0 Scripted.quiet).
  reflexivity.
Defined.

(** ** Tags, replies and tables *)

Lemma find_key_absent tag_key l :
  Forall (fun tag => Boto3.Key tag <> tag_key) l ->
  find (fun tag => Boto3.Key tag =? tag_key) l = None.
Proof.
  induction 1 as [| tag rest Hne _ IH]; cbn; [reflexivity |].
  apply String.eqb_neq in Hne. rewrite Hne. exact IH.
Qed.

(** X1. A tag list without the key (an empty one included) gives the
    default "N/A", and so does anything that is not a list. *)
Theorem get_tag_value_absent tag_key l :
  Forall (fun tag => Boto3.Key tag <> tag_key) l ->
  get_tag_value tag_key (TagList l) = "N/A"
  /\ get_tag_value tag_key NotAList = "N/A".
Proof.
  intros H. split; [| reflexivity].
  unfold get_tag_value. rewrite (find_key_absent _ _ H). reflexivity.
Qed.

Lemma get_tag_value_absent_run :
  get_tag_value "Name"
    (TagList [ {| Boto3.Key := "Project"; Boto3.Value := "Automation" |};
               {| Boto3.Key := "name"; Boto3.Value := "web" |} ]) = "N/A"
  /\ get_tag_value "Name" NotAList = "N/A".
Proof.
  apply (get_tag_value_absent "Name").
  repeat constructor; cbn; discriminate.
Defined.

(** X2. The first tag that carries the key decides: tags after it, with
    the same key or not, are not looked at. *)
Theorem get_tag_value_first_match tag_key before tag after :
  Forall (fun t => Boto3.Key t <> tag_key) before ->
  Boto3.Key tag = tag_key ->
  get_tag_value tag_key (TagList (before ++ tag :: after)) = Boto3.Value tag.
Proof.
  intros Hbefore Hkey. unfold get_tag_value.
  induction Hbefore as [| t rest Hne _ IH]; cbn.
  - apply String.eqb_eq in Hkey. rewrite Hkey. reflexivity.
  - apply String.eqb_neq in Hne. rewrite Hne. exact IH.
Qed.

Lemma get_tag_value_first_match_run :
  get_tag_value "Name"
    (TagList ([ {| Boto3.Key := "Project"; Boto3.Value := "Automation" |} ]
              ++ {| Boto3.Key := "Name"; Boto3.Value := "web" |}
              :: [ {| Boto3.Key := "Name"; Boto3.Value := "db" |} ])%list)
  = "web".
Proof.
  apply (get_tag_value_first_match "Name"
           [ {| Boto3.Key := "Project"; Boto3.Value := "Automation" |} ]
           {| Boto3.Key := "Name"; Boto3.Value := "web" |}).
  - repeat constructor; cbn; discriminate.
  - reflexivity.
Defined.

Lemma lower_ascii_y c :
  lower_ascii c = "y"%char <-> c = "y"%char \/ c = "Y"%char.
Proof.
  split.
  - destruct c as [[] [] [] [] [] [] [] []]; cbn; intros H;
      first [discriminate | left; reflexivity | right; reflexivity].
  - intros [-> | ->]; reflexivity.
Qed.

(** X3. The only replies whose [lower()] is "y" are "y" and "Y": nothing
    else (no "yes", no " y", no empty line) passes the test of [main]. *)
Theorem lower_is_y_iff reply :
  lower reply = "y" <-> reply = "y" \/ reply = "Y".
Proof.
  split.
  - destruct reply as [| c [| c' rest]]; cbn; intros H; try discriminate.
    injection H as H. apply lower_ascii_y in H.
    destruct H as [-> | ->]; [left | right]; reflexivity.
  - intros [-> | ->]; reflexivity.
Qed.

Lemma comprehension_length {A B : Type} (f : A -> exn + B) l : forall ys,
  comprehension f l = inr ys -> List.length ys = List.length l.
Proof.
  induction l as [| x rest IH]; cbn; intros ys H.
  - injection H as <-. reflexivity.
  - destruct (f x) as [e | y]; [discriminate |].
    destruct (comprehension f rest) as [e | ys']; [discriminate |].
    injection H as <-. cbn. f_equal. apply IH. reflexivity.
Qed.

Lemma comprehension_map {A B C : Type} (f : A -> exn + B) (h : C -> A)
    (g : C -> B) l :
  (forall x, f (h x) = inr (g x)) ->
  comprehension f (map h l) = inr (map g l).
Proof.
  intros H. induction l as [| x rest IH]; cbn; [reflexivity |].
  rewrite H, IH. reflexivity.
Qed.

Lemma comprehension_raises {A B : Type} (f : A -> exn + B) l x e :
  In x l -> f x = inl e -> exists e', comprehension f l = inl e'.
Proof.
  induction l as [| y rest IH]; cbn; [contradiction |].
  intros [-> | Hin] Hx.
  - rewrite Hx. eauto.
  - destruct (f y) as [e1 | b]; [eauto |].
    destruct (IH Hin Hx) as (e' & ->). eauto.
Qed.

Lemma getitem_missing item header :
  ~ In header (map fst item) -> getitem item header = inl (KeyError header).
Proof.
  intros H. unfold getitem.
  destruct (find (fun kv => fst kv =? header) item) as [kv |] eqn:E;
    [| reflexivity].
  apply find_some in E. destruct E as (Hin & Heq).
  apply String.eqb_eq in Heq. exfalso. apply H. rewrite <- Heq.
  apply in_map. exact Hin.
Qed.

Section Tables.

Context {W : Type}.

Local Open Scope list_scope.

(** X4. [display_data] never raises, whatever it is given, and leaves the
    world alone: it shows either nothing, or one table whose headers are
    the keys of the first dictionary and which has a row for every
    dictionary. *)
Theorem display_data_never_raises (data : list dict) (w : W) :
  result_of (display_data data w) = Val tt
  /\ world_of (display_data data w) = w
  /\ (trace_of (display_data data w) = []
      \/ exists d0 rows,
           first_item data = inr d0
           /\ trace_of (display_data data w) = [EvTable (map fst d0) rows]
           /\ List.length rows = List.length data).
Proof.
  unfold display_data, table_of.
  destruct (first_item data) as [e | d0]; cbn; [auto |].
  destruct (comprehension _ data) as [e | rows] eqn:E; cbn; [auto |].
  repeat split. right. exists d0, rows. repeat split.
  eapply comprehension_length. exact E.
Qed.

(** X5. The three lists the script shows: a non-empty list of listing
    records, backup records or termination records is shown whole, one row
    per record in order, under the keys of the dictionaries; the empty list
    shows nothing (the [IndexError] of [data[0]] is swallowed). *)
Theorem display_data_shows_every_record (w : W) :
  trace_of (display_data [] w) = []
  /\ (forall i rest,
         trace_of (display_data (map instance_info_dict (i :: rest)) w)
         = [EvTable ["name"; "id"; "state"; "termination_protection";
                     "stop_protection"]
              (map (fun i => [CStr (inst_name i); CStr (inst_id i);
                              CStr (inst_state i);
                              CBool (termination_protection i);
                              CBool (stop_protection i)])
                   (i :: rest))])
  /\ (forall b rest,
         trace_of (display_data (map backup_result_dict (b :: rest)) w)
         = [EvTable ["instance_name"; "instance_id"; "ami_id"; "ami_name";
                     "backup_completed"]
              (map (fun b => [CStr (instance_name b); CStr (instance_id b);
                              CStr (ami_id b); CStr (ami_name b);
                              CBool (backup_completed b)])
                   (b :: rest))])
  /\ (forall t rest,
         trace_of (display_data (map terminate_result_dict (t :: rest)) w)
         = [EvTable ["instance_name"; "instance_id"; "terminate_completed"]
              (map (fun t => [CStr (term_instance_name t);
                              CStr (term_instance_id t);
                              CBool (terminate_completed t)])
                   (t :: rest))]).
Proof.
  split; [reflexivity |].
  repeat split; intros x rest; unfold display_data, table_of;
    cbn [first_item map fst instance_info_dict backup_result_dict
           terminate_result_dict];
    match goal with
    | |- context [comprehension ?f (?d :: map ?h rest)] =>
        change (d :: map h rest) with (map h (x :: rest))
    end;
    erewrite comprehension_map by (intros; reflexivity); reflexivity.
Qed.

(** X6. A dictionary that lacks one of the keys of the first dictionary
    makes the whole table disappear: nothing is shown and nothing is
    raised. *)
Theorem display_data_missing_key_shows_nothing
    (d0 : dict) (rest : list dict) (item : dict) (header : string) (w : W) :
  In item (d0 :: rest) ->
  In header (map fst d0) ->
  ~ In header (map fst item) ->
  result_of (display_data (d0 :: rest) w) = Val tt
  /\ trace_of (display_data (d0 :: rest) w) = [].
Proof.
  intros Hitem Hheader Hmissing. unfold display_data, table_of.
  cbn [first_item].
  assert (Hrow : exists e,
             comprehension (fun h => getitem item h) (map fst d0) = inl e).
  { eapply comprehension_raises; [exact Hheader |].
    apply getitem_missing. exact Hmissing. }
  destruct Hrow as (e & Hrow).
  destruct (comprehension_raises
              (fun it => comprehension (fun h => getitem it h) (map fst d0))
              (d0 :: rest) item e Hitem Hrow) as (e' & ->).
  split; reflexivity.
Qed.

End Tables.

Lemma display_data_missing_key_run :
  result_of (display_data
               [ [("name", CStr "web"); ("id", CStr "i-1")];
                 [("name", CStr "db")] ] Scripted.quiet) = Val tt
  /\ trace_of (display_data
                 [ [("name", CStr "web"); ("id", CStr "i-1")];
                   [("name", CStr "db")] ] Scripted.quiet) = [].
Proof.
  apply (display_data_missing_key_shows_nothing
           [("name", CStr "web"); ("id", CStr "i-1")]
           [ [("name", CStr "db")] ]
           [("name", CStr "db")] "id" Scripted.quiet).
  - right. left. reflexivity.
  - right. left. reflexivity.
  - cbn. intros [H | []]. discriminate.
Defined.

(** ** The protections *)

Section Protections.

Context {W : Type}.
Variable ec2_client : Boto3.Client W.

Local Open Scope list_scope.

(** X7. [get_protections_status] reads the termination protection first
    and the stop protection second, both of the given instance, and does
    nothing else; a read that raises ends it there with that error (the stop
    protection is not read after a failed first read). *)
Theorem get_protections_status_reads instance_id w :
  (exists err,
      trace_of (get_protections_status ec2_client instance_id w)
      = [EvDescribeInstanceAttribute "disableApiTermination" instance_id
           (inl err)]
      /\ result_of (get_protections_status ec2_client instance_id w)
         = Exn (ProviderExn err))
  \/ (exists a err,
         trace_of (get_protections_status ec2_client instance_id w)
         = [EvDescribeInstanceAttribute "disableApiTermination" instance_id
              (inr a);
            EvDescribeInstanceAttribute "disableApiStop" instance_id (inl err)]
         /\ result_of (get_protections_status ec2_client instance_id w)
            = Exn (ProviderExn err))
  \/ (exists a b,
         trace_of (get_protections_status ec2_client instance_id w)
         = [EvDescribeInstanceAttribute "disableApiTermination" instance_id
              (inr a);
            EvDescribeInstanceAttribute "disableApiStop" instance_id (inr b)]
         /\ result_of (get_protections_status ec2_client instance_id w)
            = Val {| termination := a; stop := b |}).
Proof.
  unfold get_protections_status, bind, ret, ec2_describe_instance_attribute,
    client_call.
  destruct (Boto3.describe_instance_attribute ec2_client
              "disableApiTermination" instance_id w) as [[err | a] w1]; cbn.
  - left. exists err. split; reflexivity.
  - destruct (Boto3.describe_instance_attribute ec2_client
                "disableApiStop" instance_id w1) as [[err | b] w2]; cbn.
    + right. left. exists a, err. split; reflexivity.
    + right. right. exists a, b. split; reflexivity.
Qed.

(** X8. [disable_instance_protections] makes only the changes its two
    flags ask for, termination before stop, each for the given instance and
    each writing [False]; with both flags [False] it makes no call.  It
    stops at the first change the provider rejects and raises that error:
    after a rejected termination change the stop change is not tried. *)
Theorem disable_instance_protections_calls
    instance_id (disable_termination disable_stop : bool) w :
  exists failure,
    made_until_failure
      ((if disable_termination
        then [(instance_id, "DisableApiTermination", false)] else [])
       ++ (if disable_stop
           then [(instance_id, "DisableApiStop", false)] else []))
      (modify_calls
         (trace_of (disable_instance_protections ec2_client instance_id
                      disable_termination disable_stop w)))
      failure
    /\ result_of (disable_instance_protections ec2_client instance_id
                    disable_termination disable_stop w)
       = match failure with
         | None => Val tt
         | Some err => Exn (ProviderExn err)
         end
    /\ List.length
         (trace_of (disable_instance_protections ec2_client instance_id
                      disable_termination disable_stop w))
       = List.length
           (modify_calls
              (trace_of (disable_instance_protections ec2_client instance_id
                           disable_termination disable_stop w))).
Proof.
  unfold disable_instance_protections, bind, ret,
    ec2_modify_instance_attribute, client_call.
  destruct disable_termination, disable_stop; cbn;
    repeat match goal with
      | |- context [Boto3.modify_instance_attribute ?c ?i ?a ?v ?w0] =>
          destruct (Boto3.modify_instance_attribute c i a v w0)
            as [[?err | []] ?w]; cbn
      end;
    first
      [ exists None; repeat split; reflexivity
      | eexists (Some _); split;
        [ first [ exists [], (instance_id, "DisableApiTermination", false), [];
                  split; reflexivity
                | exists [], (instance_id, "DisableApiStop", false), [];
                  split; reflexivity
                | exists [], (instance_id, "DisableApiTermination", false),
                    [(instance_id, "DisableApiStop", false)];
                  split; reflexivity
                | exists [(instance_id, "DisableApiTermination", false)],
                    (instance_id, "DisableApiStop", false), [];
                  split; reflexivity ]
        | split; reflexivity ] ].
Qed.

End Protections.

(** ** Loops *)

Section Loops.

Context {W : Type}.

Local Open Scope list_scope.

Lemma bind_ret_l {A B : Type} (a : A) (f : A -> M W B) w :
  bind (ret a) f w = f a w.
Proof. unfold bind, ret. destruct (f a w) as [[r w2] t2]. reflexivity. Qed.

Lemma bind_assoc {A B C : Type}
    (m : M W A) (f : A -> M W B) (g : B -> M W C) w :
  bind (bind m f) g w = bind m (fun a => bind (f a) g) w.
Proof.
  unfold bind. destruct (m w) as [[[a | e |] w1] t1]; try reflexivity.
  destruct (f a w1) as [[[b | e |] w2] t2]; try reflexivity.
  destruct (g b w2) as [[r w3] t3]. rewrite app_assoc. reflexivity.
Qed.

Lemma bind_ext {A B : Type} (m : M W A) (f g : A -> M W B) w :
  (forall a w1, f a w1 = g a w1) -> bind m f w = bind m g w.
Proof.
  intros H. unfold bind. destruct (m w) as [[[a | e |] w1] t1]; try reflexivity.
  rewrite H. reflexivity.
Qed.

Lemma for_each_app {A S : Type} (body : A -> S -> M W S) l1 l2 : forall s w,
  for_each (l1 ++ l2) body s w
  = bind (for_each l1 body s) (fun s' => for_each l2 body s') w.
Proof.
  induction l1 as [| x rest IH]; intros s w; cbn [app for_each].
  - rewrite bind_ret_l. reflexivity.
  - rewrite bind_assoc. apply bind_ext. intros; apply IH.
Qed.

(** A loop inside a loop is one loop over the inner lists put end to
    end. *)
Lemma for_each_flat_map {A B S : Type} (g : B -> list A)
    (body : A -> S -> M W S) ls : forall s w,
  for_each ls (fun l s' => for_each (g l) body s') s w
  = for_each (flat_map g ls) body s w.
Proof.
  induction ls as [| l rest IH]; intros s w; cbn [flat_map for_each].
  - reflexivity.
  - rewrite for_each_app. apply bind_ext. intros; apply IH.
Qed.

(** One step of a loop, by what its body returned. *)
Lemma for_each_step {A S : Type} (body : A -> S -> M W S) x rest s w :
  for_each (x :: rest) body s w
  = match result_of (body x s w) with
    | Val s' =>
        (result_of (for_each rest body s' (world_of (body x s w))),
         world_of (for_each rest body s' (world_of (body x s w))),
         trace_of (body x s w)
         ++ trace_of (for_each rest body s' (world_of (body x s w))))
    | Exn e => (Exn e, world_of (body x s w), trace_of (body x s w))
    | OutOfFuel => (OutOfFuel, world_of (body x s w), trace_of (body x s w))
    end.
Proof.
  cbn [for_each]. unfold bind.
  destruct (body x s w) as [[[s' | e |] w1] t1]; cbn; try reflexivity.
  destruct (for_each rest body s' w1) as [[r w2] t2]. reflexivity.
Qed.

Lemma flat_map_flat_map {A B C : Type} (f : A -> list B) (g : B -> list C) l :
  flat_map g (flat_map f l) = flat_map (fun x => flat_map g (f x)) l.
Proof.
  induction l as [| x rest IH]; cbn; [reflexivity |].
  rewrite flat_map_app, IH. reflexivity.
Qed.

End Loops.

(** ** The listing *)

Section Listing.

Context {W : Type}.
Variable ec2_client : Boto3.Client W.

Local Open Scope list_scope.

Lemma attribute_calls_app t1 t2 :
  attribute_calls (t1 ++ t2) = attribute_calls t1 ++ attribute_calls t2.
Proof. apply flat_map_app. Qed.

Lemma pages_received_app t1 t2 :
  pages_received (t1 ++ t2) = pages_received t1 ++ pages_received t2.
Proof. apply flat_map_app. Qed.

Lemma failed_reads_app t1 t2 :
  failed_reads (t1 ++ t2) = failed_reads t1 ++ failed_reads t2.
Proof. apply flat_map_app. Qed.

Lemma flags_read_app_l t1 t2 info : flags_read t1 info -> flags_read (t1 ++ t2) info.
Proof.
  unfold flags_read. rewrite attribute_calls_app.
  intros [H1 H2]. split; apply in_or_app; left; assumption.
Qed.

Lemma flags_read_app_r t1 t2 info : flags_read t2 info -> flags_read (t1 ++ t2) info.
Proof.
  unfold flags_read. rewrite attribute_calls_app.
  intros [H1 H2]. split; apply in_or_app; right; assumption.
Qed.

(** What one pass of the inner loop of [list_instances] does. *)
Lemma list_instance_cases instance instances w :
  (exists err,
      trace_of (list_instance ec2_client instance instances w)
      = [EvDescribeInstanceAttribute "disableApiTermination"
           (Boto3.InstanceId instance) (inl err)]
      /\ result_of (list_instance ec2_client instance instances w)
         = Exn (ProviderExn err))
  \/ (exists a err,
         trace_of (list_instance ec2_client instance instances w)
         = [EvDescribeInstanceAttribute "disableApiTermination"
              (Boto3.InstanceId instance) (inr a);
            EvDescribeInstanceAttribute "disableApiStop"
              (Boto3.InstanceId instance) (inl err)]
         /\ result_of (list_instance ec2_client instance instances w)
            = Exn (ProviderExn err))
  \/ (exists a b,
         trace_of (list_instance ec2_client instance instances w)
         = [EvDescribeInstanceAttribute "disableApiTermination"
              (Boto3.InstanceId instance) (inr a);
            EvDescribeInstanceAttribute "disableApiStop"
              (Boto3.InstanceId instance) (inr b)]
         /\ result_of (list_instance ec2_client instance instances w)
            = Val (if actionable (Boto3.StateName instance)
                   then instances ++
                        [ {| inst_name := fst (fst (summary_of instance));
                             inst_id := Boto3.InstanceId instance;
                             inst_state := Boto3.StateName instance;
                             termination_protection := a;
                             stop_protection := b |} ]
                   else instances)).
Proof.
  unfold list_instance, get_protections_status, bind, ret,
    ec2_describe_instance_attribute, client_call.
  destruct (actionable (Boto3.StateName instance));
    (destruct (Boto3.describe_instance_attribute ec2_client
                 "disableApiTermination" (Boto3.InstanceId instance) w)
      as [[err | a] w1]; cbn;
     [ left; exists err; split; reflexivity |];
     destruct (Boto3.describe_instance_attribute ec2_client
                 "disableApiStop" (Boto3.InstanceId instance) w1)
       as [[err | b] w2]; cbn;
     [ right; left; exists a, err; split; reflexivity
     | right; right; exists a, b; split; reflexivity ]).
Qed.

(** The loop over the instances of all reservations. *)
Lemma list_loop_run l : forall instances w,
  result_of (for_each l (list_instance ec2_client) instances w) <> OutOfFuel
  /\ pages_received
       (trace_of (for_each l (list_instance ec2_client) instances w)) = []
  /\ (forall out,
         result_of (for_each l (list_instance ec2_client) instances w) = Val out ->
         exists new,
           out = instances ++ new
           /\ map summary new
              = map summary_of
                  (filter (fun i => actionable (Boto3.StateName i)) l)
           /\ map fst (attribute_calls
                         (trace_of (for_each l (list_instance ec2_client)
                                      instances w)))
              = flat_map (fun i => protection_reads (Boto3.InstanceId i)) l
           /\ Forall (flags_read
                        (trace_of (for_each l (list_instance ec2_client)
                                     instances w)))
                     new).
Proof.
  induction l as [| instance rest IH]; intros instances w.
  - cbn. repeat split; try discriminate.
    intros out H. injection H as <-. exists [].
    rewrite app_nil_r. repeat split. constructor.
  - rewrite for_each_step.
    destruct (list_instance_cases instance instances w)
      as [(err & Ht & Hr) | [(a & err & Ht & Hr) | (a & b & Ht & Hr)]];
      rewrite Hr; cbn [result_of trace_of world_of fst snd].
    + rewrite Ht. repeat split; try discriminate.
    + rewrite Ht. repeat split; try discriminate.
    + match goal with
      | |- context [for_each rest _ ?acc ?w1] =>
          destruct (IH acc w1) as (Hfuel & Hpages & Hval)
      end.
      split; [exact Hfuel |].
      split; [rewrite pages_received_app, Hpages, Ht; reflexivity |].
      intros out Hout. destruct (Hval out Hout) as (new & Hnew & Hsum & Hcalls & Hflags).
      rewrite attribute_calls_app, map_app, Hcalls, Ht.
      cbn [filter].
      destruct (actionable (Boto3.StateName instance)).
      * eexists (_ :: new). rewrite Hnew, <- app_assoc.
        split; [reflexivity |].
        split; [cbn; rewrite Hsum; reflexivity |].
        split; [reflexivity |].
        constructor.
        -- apply flags_read_app_l. split; cbn; auto.
        -- eapply Forall_impl; [| exact Hflags].
           intros info. apply flags_read_app_r.
      * exists new. split; [exact Hnew |].
        split; [exact Hsum |].
        split; [reflexivity |].
        eapply Forall_impl; [| exact Hflags].
        intros info. apply flags_read_app_r.
Qed.

(** The pages loop: what it returns are the reservations it was given and
    those of the pages it received, in order. *)
Lemma next_pages_received fuel : forall response reservations w,
  attribute_calls
    (trace_of (next_pages ec2_client fuel response reservations w)) = []
  /\ forall out,
       result_of (next_pages ec2_client fuel response reservations w) = Val out ->
       out = reservations
             ++ flat_map Boto3.Reservations
                  (pages_received
                     (trace_of (next_pages ec2_client fuel response
                                  reservations w))).
Proof.
  induction fuel as [| fuel IH]; intros response reservations w;
    cbn [next_pages]; destruct (Boto3.NextToken response) as [token |].
  - cbn. split; [reflexivity | discriminate].
  - cbn. split; [reflexivity |]. intros out H. injection H as <-.
    rewrite app_nil_r. reflexivity.
  - unfold bind, ec2_describe_instances, client_call.
    destruct (Boto3.describe_instances ec2_client _ w) as [[err | page] w1];
      cbn.
    + split; [reflexivity | discriminate].
    + specialize (IH page (reservations ++ Boto3.Reservations page) w1).
      destruct (next_pages ec2_client fuel page
                  (reservations ++ Boto3.Reservations page) w1)
        as [[r w2] t2].
      cbn in *. destruct IH as (Hattr & Hout).
      split; [exact Hattr |].
      intros out H. rewrite (Hout out H), <- app_assoc. reflexivity.
  - cbn. split; [reflexivity |]. intros out H. injection H as <-.
    rewrite app_nil_r. reflexivity.
Qed.

Lemma actionable_states state :
  actionable state = true ->
  state = "running" \/ state = "stopping" \/ state = "stopped".
Proof.
  unfold actionable. cbn. rewrite !orb_true_iff, !String.eqb_eq.
  intros [H | [H | [H | H]]]; auto. discriminate.
Qed.

Lemma summary_states infos : forall l,
  map summary infos = map summary_of l ->
  Forall (fun i => actionable (Boto3.StateName i) = true) l ->
  Forall (fun info => inst_state info = "running"
                      \/ inst_state info = "stopping"
                      \/ inst_state info = "stopped") infos.
Proof.
  induction infos as [| info rest IH]; intros [| i l] Hmap Hall;
    try discriminate; constructor.
  - cbn in Hmap. injection Hmap as _ _ Hstate _.
    inversion Hall; subst. rewrite Hstate. apply actionable_states. assumption.
  - cbn in Hmap. injection Hmap as _ _ _ Hrest.
    inversion Hall; subst. eapply IH; eassumption.
Qed.

(** [list_instances] step by step: the first page, the further pages, the
    loop over the instances of all of them. *)
Lemma list_instances_run fuel tags w :
  list_instances ec2_client fuel tags w
  = let request := {| Boto3.req_Filters := Some tags;
                      Boto3.req_NextToken := None |} in
    match Boto3.describe_instances ec2_client request w with
    | (inl err, w1) =>
        (Exn (ProviderExn err), w1, [EvDescribeInstances request (inl err)])
    | (inr first, w1) =>
        let pages :=
          next_pages ec2_client fuel first (Boto3.Reservations first) w1 in
        match result_of pages with
        | Val reservations =>
            let loop :=
              for_each (flat_map Boto3.Instances reservations)
                (list_instance ec2_client) [] (world_of pages) in
            (result_of loop, world_of loop,
             EvDescribeInstances request (inr first)
             :: trace_of pages ++ trace_of loop)
        | Exn e =>
            (Exn e, world_of pages,
             EvDescribeInstances request (inr first) :: trace_of pages)
        | OutOfFuel =>
            (OutOfFuel, world_of pages,
             EvDescribeInstances request (inr first) :: trace_of pages)
        end
    end.
Proof.
  unfold list_instances, ec2_describe_instances, client_call.
  unfold bind at 1. cbv zeta.
  destruct (Boto3.describe_instances ec2_client _ w) as [[err | first] w1];
    [reflexivity |].
  unfold bind.
  destruct (next_pages ec2_client fuel first (Boto3.Reservations first) w1)
    as [[[reservations | e |] w2] t2]; cbn [result_of world_of trace_of fst snd];
    try reflexivity.
  rewrite for_each_flat_map.
  destruct (for_each (flat_map Boto3.Instances reservations)
              (list_instance ec2_client) [] w2) as [[r w3] t3].
  reflexivity.
Qed.

(** What [list_instances] returns, and what it read for it, in terms of the
    pages it received. *)
Lemma list_instances_returned fuel tags w infos :
  result_of (list_instances ec2_client fuel tags w) = Val infos ->
  map summary infos
  = map summary_of
      (filter (fun i => actionable (Boto3.StateName i))
         (raw_instances
            (pages_received (trace_of (list_instances ec2_client fuel tags w)))))
  /\ map fst (attribute_calls
                (trace_of (list_instances ec2_client fuel tags w)))
     = flat_map (fun i => protection_reads (Boto3.InstanceId i))
         (raw_instances
            (pages_received (trace_of (list_instances ec2_client fuel tags w))))
  /\ Forall (flags_read (trace_of (list_instances ec2_client fuel tags w)))
            infos.
Proof.
  rewrite list_instances_run. cbv zeta.
  destruct (Boto3.describe_instances ec2_client _ w) as [[err | first] w1];
    [cbn; discriminate |].
  pose proof (next_pages_received fuel first (Boto3.Reservations first) w1)
    as (Hattr & Hpages).
  destruct (next_pages ec2_client fuel first (Boto3.Reservations first) w1)
    as [[[reservations | e |] w2] t2];
    cbn [result_of world_of trace_of fst snd] in *;
    [| discriminate | discriminate].
  specialize (Hpages _ eq_refl).
  pose proof (list_loop_run (flat_map Boto3.Instances reservations) [] w2)
    as (_ & Hnone & Hval).
  destruct (for_each (flat_map Boto3.Instances reservations)
              (list_instance ec2_client) [] w2) as [[r w3] t3].
  cbn [result_of trace_of fst snd] in *. intros ->.
  destruct (Hval infos eq_refl) as (new & Hnew & Hsum & Hcalls & Hflags).
  cbn [app] in Hnew. subst new.
  assert (Hraw : raw_instances (pages_received
                                  (EvDescribeInstances
                                     {| Boto3.req_Filters := Some tags;
                                        Boto3.req_NextToken := None |}
                                     (inr first) :: t2 ++ t3))
                 = flat_map Boto3.Instances reservations).
  { cbn [pages_received flat_map app].
    change (flat_map _ (t2 ++ t3)) with (pages_received (t2 ++ t3)).
    rewrite pages_received_app, Hnone, app_nil_r.
    unfold raw_instances. cbn [flat_map].
    rewrite Hpages, flat_map_app, flat_map_flat_map. reflexivity. }
  rewrite Hraw.
  split; [exact Hsum |].
  split.
  - cbn [attribute_calls flat_map app].
    change (flat_map _ (t2 ++ t3)) with (attribute_calls (t2 ++ t3)).
    rewrite attribute_calls_app, Hattr. exact Hcalls.
  - eapply Forall_impl; [| exact Hflags]. intros info Hf.
    apply (flags_read_app_r [_] (t2 ++ t3)).
    apply flags_read_app_r. exact Hf.
Qed.

(** X9. [list_instances] only reads: every event of a listing is a
    [describe_instances] call or an attribute read, so it changes nothing
    at the provider and asks the operator nothing, whatever the answers. *)
Theorem list_instances_only_reads fuel tags w :
  Forall (fun e => listing e /\ mutating e = false /\ is_input e = false)
         (trace_of (list_instances ec2_client fuel tags w)).
Proof.
  eapply Forall_impl; [| apply list_instances_listing].
  intros e H. split; [exact H | apply listing_harmless; exact H].
Qed.

(** X10. When [list_instances] returns, its records are the instances of
    the pages it received whose state is running, stopping or stopped, in
    the order of the pages, each with its id, its state and the value of its
    Name tag ("N/A" without one); instances in any other state are left
    out. *)
Theorem list_instances_returns_actionable fuel tags w infos :
  result_of (list_instances ec2_client fuel tags w) = Val infos ->
  map summary infos
  = map summary_of
      (filter (fun i => actionable (Boto3.StateName i))
         (raw_instances
            (pages_received (trace_of (list_instances ec2_client fuel tags w)))))
  /\ Forall (fun info => inst_state info = "running"
                         \/ inst_state info = "stopping"
                         \/ inst_state info = "stopped") infos.
Proof.
  intros H. destruct (list_instances_returned _ _ _ _ H) as (Hsum & _).
  split; [exact Hsum |].
  eapply summary_states; [exact Hsum |].
  apply Forall_forall. intros i Hin. apply filter_In in Hin. apply Hin.
Qed.

(** X11. When [list_instances] returns, it has read both protections of
    every instance of the pages it received, in order, those it then leaves
    out for their state included; and the flags of each record are answers
    the provider gave for that instance. *)
Theorem list_instances_reads_every_instance fuel tags w infos :
  result_of (list_instances ec2_client fuel tags w) = Val infos ->
  map fst (attribute_calls
             (trace_of (list_instances ec2_client fuel tags w)))
  = flat_map (fun i => protection_reads (Boto3.InstanceId i))
      (raw_instances
         (pages_received (trace_of (list_instances ec2_client fuel tags w))))
  /\ Forall (flags_read (trace_of (list_instances ec2_client fuel tags w)))
            infos.
Proof.
  intros H. destruct (list_instances_returned _ _ _ _ H) as (_ & Hcalls & Hf).
  split; assumption.
Qed.

Lemma reads_settled_bind {A B : Type} (m : M W A) (f : A -> M W B) w :
  reads_settled (m w) ->
  (forall a w1, reads_settled (f a w1)) ->
  reads_settled (bind m f w).
Proof.
  intros Hm Hf. unfold bind.
  destruct (m w) as [[[a | e |] w1] t1].
  - specialize (Hf a w1). destruct (f a w1) as [[r w2] t2].
    unfold reads_settled in *. cbn [trace_of result_of fst snd] in *.
    destruct Hm as [Hm | (err & before & ev & _ & _ & _ & Hr)];
      [| discriminate].
    destruct Hf as [Hf | (err & before & ev & Ht & Hb & He & Hr)].
    + left. rewrite failed_reads_app, Hm, Hf. reflexivity.
    + right. exists err, (t1 ++ before), ev.
      rewrite Ht, app_assoc, failed_reads_app, Hm, Hb. repeat split; auto.
  - unfold reads_settled in *. cbn [trace_of result_of fst snd] in *.
    destruct Hm as [Hm | (err & before & ev & Ht & Hb & He & Hr)];
      [left; exact Hm |].
    right. exists err, before, ev. injection Hr as ->. repeat split; auto.
  - unfold reads_settled in *. cbn [trace_of result_of fst snd] in *.
    destruct Hm as [Hm | (err & before & ev & _ & _ & _ & Hr)];
      [left; exact Hm | discriminate].
Qed.

Lemma reads_settled_for_each {A S : Type} (body : A -> S -> M W S) l :
  (forall x s w, reads_settled (body x s w)) ->
  forall s w, reads_settled (for_each l body s w).
Proof.
  intros Hbody. induction l as [| x rest IH]; intros s w; cbn [for_each].
  - left. reflexivity.
  - apply reads_settled_bind; [apply Hbody | intros; apply IH].
Qed.

Lemma reads_settled_describe_instances request w :
  reads_settled (ec2_describe_instances ec2_client request w).
Proof.
  unfold ec2_describe_instances, client_call.
  destruct (Boto3.describe_instances ec2_client request w) as [[err | page] w1].
  - right. exists err, [], (EvDescribeInstances request (inl err)). auto.
  - left. reflexivity.
Qed.

Lemma reads_settled_describe_instance_attribute attribute instance_id w :
  reads_settled
    (ec2_describe_instance_attribute ec2_client attribute instance_id w).
Proof.
  unfold ec2_describe_instance_attribute, client_call.
  destruct (Boto3.describe_instance_attribute ec2_client attribute instance_id w)
    as [[err | b] w1].
  - right.
    exists err, [], (EvDescribeInstanceAttribute attribute instance_id (inl err)).
    auto.
  - left. reflexivity.
Qed.

Lemma reads_settled_next_pages fuel : forall response reservations w,
  reads_settled (next_pages ec2_client fuel response reservations w).
Proof.
  induction fuel as [| fuel IH]; intros response reservations w;
    cbn [next_pages]; destruct (Boto3.NextToken response);
    try (left; reflexivity).
  apply reads_settled_bind;
    [apply reads_settled_describe_instances | intros; apply IH].
Qed.

Lemma reads_settled_list_instances fuel tags w :
  reads_settled (list_instances ec2_client fuel tags w).
Proof.
  unfold list_instances.
  apply reads_settled_bind; [apply reads_settled_describe_instances |].
  intros response w1.
  apply reads_settled_bind; [apply reads_settled_next_pages |].
  intros reservations w2.
  apply reads_settled_for_each. intros reservation instances w3.
  apply reads_settled_for_each. intros instance instances' w4.
  unfold list_instance, get_protections_status.
  apply reads_settled_bind.
  - apply reads_settled_bind;
      [apply reads_settled_describe_instance_attribute | intros].
    apply reads_settled_bind;
      [apply reads_settled_describe_instance_attribute | intros].
    left. reflexivity.
  - intros. destruct (actionable (Boto3.StateName instance)); left; reflexivity.
Qed.

(** X12. A read call of the listing that raises (a [describe_instances]
    call or an attribute read, of an instance the state filter would drop
    as well) ends [list_instances] on the spot: it raises that error, the
    failed call is its last event, and no other read of the run failed, so
    nothing is retried and no partial list is returned. *)
Theorem list_instances_read_failure fuel tags w err :
  In err (failed_reads (trace_of (list_instances ec2_client fuel tags w))) ->
  result_of (list_instances ec2_client fuel tags w) = Exn (ProviderExn err)
  /\ exists before ev,
       trace_of (list_instances ec2_client fuel tags w) = before ++ [ev]
       /\ failed_reads before = []
       /\ failed_reads [ev] = [err].
Proof.
  intros Hin.
  destruct (reads_settled_list_instances fuel tags w)
    as [Hnone | (err' & before & ev & Ht & Hb & He & Hr)].
  - rewrite Hnone in Hin. contradiction.
  - rewrite Ht, failed_reads_app, Hb, He in Hin. cbn in Hin.
    destruct Hin as [<- | []].
    split; [exact Hr |]. exists before, ev. auto.
Qed.

End Listing.

(** ** The backup stage, call by call *)

Section Backup.

Context {W : Type}.
Variable ec2_client : Boto3.Client W.
Variable host : Host W.

Local Open Scope list_scope.

Ltac backup_cases w :=
  unfold create_ami, try_except, bind, print, sleep, read_local, raise, ret,
    datetime_now, ec2_create_image, ec2_create_tags, client_call;
  destruct (host_now host w) as [?now ?w];
  repeat match goal with
    | |- context [Boto3.create_image ?c ?req ?w0] =>
        destruct (Boto3.create_image c req w0) as [[[?msg | ?msg] | ?ami] ?w];
        cbn [is_ClientError]
    | |- context [Boto3.create_tags ?c ?rs ?ts ?w0] =>
        destruct (Boto3.create_tags c rs ts w0) as [[?err | []] ?w]
    end;
  cbn [result_of trace_of fst snd app].

(** X13. The whole behaviour of [create_ami], by the answers it gets.  An
    image created at the first attempt, or at the second after a
    [ClientError], and then tagged, gives the record of a completed backup
    with the image id the provider returned.  A rejected tagging raises its
    error.  An error of [create_image] that is not a [ClientError] raises at
    once, at the first attempt as at the second.  Two [ClientError]s raise
    [UnboundLocalError].  There is no other case: never a third attempt,
    never a tagging without an image. *)
Theorem create_ami_by_answers instance w :
  exists now,
    create_ami_table instance now
      (map snd (image_calls (trace_of (create_ami ec2_client host instance w))))
      (map snd (tagging_calls (trace_of (create_ami ec2_client host instance w))))
      (result_of (create_ami ec2_client host instance w)).
Proof.
  backup_cases w. all: exists now; cbn; reflexivity.
Qed.

(** X14. What [create_ami] sends.  It reads the clock once, first; every
    [create_image] request is for the instance, without reboot, not a dry
    run, under the name "EC2DeletionScript_<id>_<YYYYmmddHHMMSS>" of that
    clock reading; and every [create_tags] call tags one resource, an image
    id a [create_image] call of the run returned, with the single tag
    Name = that same name. *)
Theorem create_ami_requests instance w :
  exists now rest,
    trace_of (create_ami ec2_client host instance w) = EvNow now :: rest
    /\ Forall (fun e => match e with EvNow _ => False | _ => True end) rest
    /\ Forall (fun call => fst call = image_request instance now)
              (image_calls (trace_of (create_ami ec2_client host instance w)))
    /\ Forall (fun call =>
                 exists image_id,
                   fst call
                   = ([image_id],
                      [ {| Boto3.Key := "Name";
                           Boto3.Value := image_name (inst_id instance) now |} ])
                   /\ In (image_request instance now, inr image_id)
                         (image_calls
                            (trace_of (create_ami ec2_client host instance w))))
              (tagging_calls (trace_of (create_ami ec2_client host instance w))).
Proof.
  backup_cases w.
  all: exists now; eexists; split; [reflexivity |];
    split; [repeat constructor |];
    split; [cbn; repeat (constructor; [reflexivity |]); constructor |];
    cbn;
    first [ apply Forall_nil
          | apply Forall_cons; [| apply Forall_nil];
            eexists; split; [reflexivity | cbn; auto] ].
Qed.

(** The image requests of [create_ami] are for its instance. *)
Lemma create_ami_images_for instance w :
  Forall (fun call => Boto3.img_InstanceId (fst call) = inst_id instance)
         (image_calls (trace_of (create_ami ec2_client host instance w))).
Proof. backup_cases w. all: cbn; repeat constructor. Qed.

(** The events of [create_ami] are events of the backup stage. *)
Lemma create_ami_events instance w :
  Forall backup_event (trace_of (create_ami ec2_client host instance w)).
Proof. backup_cases w. all: repeat constructor. Qed.

(** A record [create_ami] returns has its image: a [create_image] call of
    the run, for the instance, returned the image id of the record, and the
    tagging of that image returned too. *)
Lemma create_ami_imaged instance w result :
  result_of (create_ami ec2_client host instance w) = Val result ->
  exists req,
    Boto3.img_InstanceId req = instance_id result
    /\ In (req, inr (ami_id result))
          (image_calls (trace_of (create_ami ec2_client host instance w))).
Proof.
  backup_cases w.
  all: cbn; intros H; try discriminate.
  all: injection H as <-; eexists; split; [| cbn; eauto]; reflexivity.
Qed.

Lemma image_calls_app t1 t2 :
  image_calls (t1 ++ t2) = image_calls t1 ++ image_calls t2.
Proof. apply flat_map_app. Qed.

Lemma trace_try_except_all {A : Type} (P : event -> Prop)
    (body : M W A) (catches : exn -> bool) (handler : exn -> M W A) w :
  Forall P (trace_of (body w)) ->
  (forall e w1, Forall P (trace_of (handler e w1))) ->
  Forall P (trace_of (try_except body catches handler w)).
Proof.
  intros Hb Hh. unfold try_except.
  destruct (body w) as [[[a | e |] w1] t1]; cbn in *; try assumption.
  destruct (catches e); [| exact Hb].
  specialize (Hh e w1). destruct (handler e w1) as [[r w2] t2]. cbn in *.
  apply Forall_app. split; assumption.
Qed.

Lemma backup_instances_events instances w :
  Forall backup_event
         (trace_of (backup_instances ec2_client host instances w)).
Proof.
  unfold backup_instances. apply trace_for_each_all.
  intros instance results w1. unfold backup_instance.
  apply trace_bind_all; [apply create_ami_events | intros; constructor].
Qed.

Lemma backup_loop_imaged instances : forall results w all,
  result_of (for_each instances (backup_instance ec2_client host) results w)
  = Val all ->
  exists outs,
    all = results ++ outs
    /\ Forall (fun result =>
                 exists req,
                   Boto3.img_InstanceId req = instance_id result
                   /\ In (req, inr (ami_id result))
                         (image_calls
                            (trace_of (for_each instances
                                         (backup_instance ec2_client host)
                                         results w))))
              outs.
Proof.
  induction instances as [| instance rest IH]; intros results w all.
  - cbn. intros H. injection H as <-. exists [].
    rewrite app_nil_r. split; constructor.
  - rewrite backup_loop_step.
    destruct (result_of (create_ami ec2_client host instance w))
      as [result | e |] eqn:E; try discriminate.
    destruct (create_ami_imaged _ _ _ E) as (req & Hid & Hin).
    cbn [result_of trace_of fst snd]. intros H.
    destruct (IH _ _ _ H) as (outs & -> & Hall).
    exists (result :: outs). rewrite <- app_assoc. split; [reflexivity |].
    constructor.
    + exists req. split; [exact Hid |].
      rewrite image_calls_app. apply in_or_app. left. exact Hin.
    + eapply Forall_impl; [| exact Hall].
      intros r (req' & Hid' & Hin'). exists req'. split; [exact Hid' |].
      rewrite image_calls_app. apply in_or_app. right. exact Hin'.
Qed.

Lemma tagging_calls_app t1 t2 :
  tagging_calls (t1 ++ t2) = tagging_calls t1 ++ tagging_calls t2.
Proof. apply flat_map_app. Qed.

(** A record [create_ami] returns has its tagging: the one [create_tags]
    call of that run tagged the image of the record with its name, and
    returned. *)
Lemma create_ami_tagged instance w result :
  result_of (create_ami ec2_client host instance w) = Val result ->
  tagging_calls (trace_of (create_ami ec2_client host instance w))
  = [ ([ami_id result],
       [ {| Boto3.Key := "Name"; Boto3.Value := ami_name result |} ],
       inr tt) ].
Proof.
  backup_cases w.
  all: cbn; intros H; try discriminate.
  all: injection H as <-; reflexivity.
Qed.

Lemma backup_loop_tagged instances : forall results w all,
  result_of (for_each instances (backup_instance ec2_client host) results w)
  = Val all ->
  exists outs,
    all = results ++ outs
    /\ tagging_calls
         (trace_of (for_each instances (backup_instance ec2_client host)
                      results w))
       = map (fun result =>
                ([ami_id result],
                 [ {| Boto3.Key := "Name"; Boto3.Value := ami_name result |} ],
                 inr tt))
             outs.
Proof.
  induction instances as [| instance rest IH]; intros results w all.
  - cbn. intros H. injection H as <-. exists [].
    rewrite app_nil_r. split; reflexivity.
  - rewrite backup_loop_step.
    destruct (result_of (create_ami ec2_client host instance w))
      as [result | e |] eqn:E; try discriminate.
    pose proof (create_ami_tagged _ _ _ E) as Htag.
    cbn [result_of trace_of fst snd]. intros H.
    destruct (IH _ _ _ H) as (outs & -> & Hall).
    exists (result :: outs). rewrite <- app_assoc. split; [reflexivity |].
    rewrite tagging_calls_app, Htag, Hall. reflexivity.
Qed.

(** X15. [backup_instances] returns a list only when every instance was
    imaged and tagged: the list then has one record per instance, in order,
    with the instance's name and id, every record says
    [backup_completed = True], the image id of each record was returned
    by a [create_image] call of the run for that instance, and the
    [create_tags] calls of the run are one per record, in order, each
    tagging the image of its record with the name of the record, and each
    returned.  No returned record ever says [backup_completed = False]. *)
Theorem backup_instances_returns_completed instances w results :
  result_of (backup_instances ec2_client host instances w) = Val results ->
  map instance_id results = map inst_id instances
  /\ map instance_name results = map inst_name instances
  /\ Forall (fun result => backup_completed result = true) results
  /\ Forall (fun result =>
               exists req,
                 Boto3.img_InstanceId req = instance_id result
                 /\ In (req, inr (ami_id result))
                       (image_calls
                          (trace_of (backup_instances ec2_client host
                                       instances w))))
            results
  /\ tagging_calls (trace_of (backup_instances ec2_client host instances w))
     = map (fun result =>
              ([ami_id result],
               [ {| Boto3.Key := "Name"; Boto3.Value := ami_name result |} ],
               inr tt))
           results.
Proof.
  intros H.
  destruct (backup_instances_returned _ _ _ _ _ H) as (Hids & Hnames & Hdone).
  destruct (backup_loop_imaged _ _ _ _ H) as (outs & Hall & Himg).
  cbn [app] in Hall. subst outs.
  destruct (backup_loop_tagged _ _ _ _ H) as (outs & Hall & Htag).
  cbn [app] in Hall. subst outs.
  repeat split; assumption.
Qed.

(** X16. The backup stage reads the clock, prints, sleeps, creates images
    and tags them, and nothing else: whatever the provider answers it never
    terminates an instance, never changes an attribute, never lists and
    never asks the operator. *)
Theorem backup_instances_only_backs_up instances w :
  Forall (fun e => backup_event e
                   /\ terminate_calls [e] = []
                   /\ modify_calls [e] = []
                   /\ is_input e = false)
         (trace_of (backup_instances ec2_client host instances w)).
Proof.
  eapply Forall_impl; [| apply backup_instances_events].
  intros [] H; cbn in *; try contradiction; auto.
Qed.

(** The events of the termination stage. *)
Lemma terminate_instances_events instances w :
  Forall terminate_event
         (trace_of (terminate_instances ec2_client host instances w)).
Proof.
  unfold terminate_instances. apply trace_for_each_all.
  intros instance results w1. unfold terminate_instance.
  apply trace_try_except_all.
  - apply trace_bind_all; [repeat constructor | intros].
    apply trace_bind_all;
      [apply trace_client_call_all; intros; exact I | intros].
    apply trace_bind_all; [repeat constructor | intros].
    apply trace_bind_all.
    { unfold lift. destruct (first_item _); constructor. }
    intros. apply trace_bind_all; [| intros; constructor].
    destruct (Boto3.CurrentStateName _ =? "shutting-down");
      (apply trace_bind_all; [repeat constructor | intros; constructor]).
  - intros. apply trace_bind_all; [repeat constructor | intros; constructor].
Qed.

(** X17. The termination stage prints, sleeps and calls
    [terminate_instances] on the client, and nothing else: it creates no
    image, changes no attribute, lists nothing and asks nothing. *)
Theorem terminate_instances_only_terminates instances w :
  Forall (fun e => terminate_event e
                   /\ image_calls [e] = []
                   /\ modify_calls [e] = []
                   /\ is_input e = false)
         (trace_of (terminate_instances ec2_client host instances w)).
Proof.
  eapply Forall_impl; [| apply terminate_instances_events].
  intros [] H; cbn in *; try contradiction; auto.
Qed.

Lemma terminate_instance_settles instance results w :
  exists r,
    terminate_calls
      (trace_of (terminate_instance ec2_client host instance results w))
    = [([instance_id instance], r)]
    /\ terminate_calls_and_sleeps
         (trace_of (terminate_instance ec2_client host instance results w))
       = match r with
         | inr _ => [EvTerminateInstances [instance_id instance] r; EvSleep 3]
         | inl _ => [EvTerminateInstances [instance_id instance] r]
         end
    /\ exists out,
         result_of (terminate_instance ec2_client host instance results w)
         = Val out.
Proof.
  unfold terminate_instance, try_except, bind, print, sleep, lift,
    ec2_terminate_instances, client_call, first_item.
  destruct (Boto3.terminate_instances ec2_client [instance_id instance] w)
    as [[err | response] w1]; cbn.
  - exists (inl err). eauto.
  - destruct (Boto3.TerminatingInstances response) as [| change others]; cbn.
    + exists (inr response). eauto.
    + destruct (Boto3.CurrentStateName change =? "shutting-down"); cbn;
        exists (inr response); eauto.
Qed.

(** X18. After every termination call that returns, the stage sleeps 3
    seconds before anything else; after a call that raises it does not
    sleep; and it sleeps at no other moment. *)
Theorem terminate_instances_settle_delay instances w :
  terminate_calls_and_sleeps
    (trace_of (terminate_instances ec2_client host instances w))
  = flat_map
      (fun call =>
         match snd call with
         | inr _ => [EvTerminateInstances (fst call) (snd call); EvSleep 3]
         | inl _ => [EvTerminateInstances (fst call) (snd call)]
         end)
      (terminate_calls
         (trace_of (terminate_instances ec2_client host instances w))).
Proof.
  unfold terminate_instances. generalize (@nil terminate_result) as results.
  revert w. induction instances as [| instance rest IH]; intros w results.
  - reflexivity.
  - rewrite for_each_step.
    destruct (terminate_instance_settles instance results w)
      as (r & Hcalls & Hsleeps & out & Hout).
    rewrite Hout. cbn [result_of trace_of fst snd].
    unfold terminate_calls_and_sleeps in *.
    rewrite filter_app, terminate_calls_app, flat_map_app, Hcalls, Hsleeps, IH.
    cbn. destruct r; reflexivity.
Qed.

End Backup.

(** ** The orchestration, stage by stage *)

Section Orchestration.

Context {W : Type}.
Variable ec2_client : Boto3.Client W.
Variable host : Host W.

Local Open Scope list_scope.

Lemma print_all (P : event -> Prop) s (w : W) :
  P (EvPrint s) -> Forall P (trace_of (print s w)).
Proof. intros H. repeat constructor. exact H. Qed.

Lemma input_all (P : event -> Prop) prompt w :
  (forall reply, P (EvInput prompt reply)) ->
  Forall P (trace_of (input host prompt w)).
Proof.
  intros H. unfold input. destruct (host_input host prompt w) as [reply w1].
  repeat constructor. apply H.
Qed.

Lemma display_data_all (P : event -> Prop) data (w : W) :
  (forall headers rows, P (EvTable headers rows)) ->
  Forall P (trace_of (display_data data w)).
Proof.
  intros H. unfold display_data.
  destruct (table_of data) as [e | [headers rows]]; repeat constructor.
  apply H.
Qed.

Lemma list_instances_all (P : event -> Prop) fuel tags w :
  (forall e, listing e -> P e) ->
  Forall P (trace_of (list_instances ec2_client fuel tags w)).
Proof. intros H. eapply Forall_impl; [exact H | apply list_instances_listing]. Qed.

Lemma backup_instances_all (P : event -> Prop) instances w :
  (forall e, backup_event e -> P e) ->
  Forall P (trace_of (backup_instances ec2_client host instances w)).
Proof.
  intros H. eapply Forall_impl; [exact H | apply backup_instances_events].
Qed.

Lemma terminate_instances_all (P : event -> Prop) instances w :
  (forall e, terminate_event e -> P e) ->
  Forall P (trace_of (terminate_instances ec2_client host instances w)).
Proof.
  intros H. eapply Forall_impl; [exact H | apply terminate_instances_events].
Qed.

Lemma disable_instance_protections_all (P : event -> Prop)
    instance_id disable_termination disable_stop w :
  (forall i a v r, P (EvModifyInstanceAttribute i a v r)) ->
  Forall P (trace_of (disable_instance_protections ec2_client instance_id
                        disable_termination disable_stop w)).
Proof.
  intros H. unfold disable_instance_protections.
  apply trace_bind_all.
  - destruct disable_termination;
      [apply trace_client_call_all; intros; apply H | constructor].
  - intros. destruct disable_stop;
      [apply trace_client_call_all; intros; apply H | constructor].
Qed.

(** The block of [main] between the first listing and the backup prompt:
    the protection question, the changes and the second listing. *)
Ltac stage_events :=
  repeat first
    [ apply list_instances_all; intros [] ?
    | apply backup_instances_all; intros [] ?
    | apply terminate_instances_all; intros [] ?
    | apply display_data_all; intros
    | apply disable_instance_protections_all; intros
    | apply print_all
    | apply input_all; intros
    | apply trace_for_each_all; intros
    | apply trace_bind_all; [| intros]
    | match goal with
      | |- Forall _ (trace_of ((if ?c then _ else _) _)) => destruct c
      | |- Forall _ (trace_of (ret _ _)) => constructor
      | |- Forall _ (trace_of (sys_exit _)) => constructor
      end ].

Lemma gated_quiet quiet prompt tr : Forall quiet tr -> gated quiet prompt tr.
Proof.
  intros H. exists tr, []. rewrite app_nil_r. auto.
Qed.

Lemma gated_bind {A B : Type} quiet prompt (m : M W A) (f : A -> M W B) w :
  Forall quiet (trace_of (m w)) ->
  (forall a w1, gated quiet prompt (trace_of (f a w1))) ->
  gated quiet prompt (trace_of (bind m f w)).
Proof.
  intros Hm Hf. unfold bind.
  destruct (m w) as [[[a | e |] w1] t1]; cbn in *;
    try (apply gated_quiet; exact Hm).
  specialize (Hf a w1). destruct (f a w1) as [[r w2] t2]. cbn in *.
  destruct Hf as (before & after & -> & Hq & Hafter).
  exists (t1 ++ before), after. rewrite app_assoc.
  split; [reflexivity |]. split; [| exact Hafter].
  apply Forall_app. split; assumption.
Qed.

Lemma gated_input {B : Type} quiet prompt (f : string -> M W B) w :
  gated quiet prompt (trace_of (bind (input host prompt) f w)).
Proof.
  unfold bind, input. destruct (host_input host prompt w) as [reply w1].
  destruct (f reply w1) as [[r w2] t2]. cbn.
  exists [], (EvInput prompt reply :: t2). split; [reflexivity |].
  split; [constructor | right; eauto].
Qed.

(** X19. [main] is paced by its two prompts, on every run: nothing of the
    backup stage (no image, no tag) and no termination happens before the
    operator has answered the backup prompt, and no termination happens
    before the operator has answered the termination prompt. *)
Theorem main_waits_for_the_operator fuel w :
  gated not_backup_or_terminate backup_prompt
        (trace_of (main ec2_client host fuel w))
  /\ gated not_terminate terminate_prompt
           (trace_of (main ec2_client host fuel w)).
Proof.
  split; unfold main.
  - apply gated_bind; [stage_events; exact I | intros].
    apply gated_bind; [stage_events; exact I | intros].
    apply gated_bind; [stage_events; cbn in *; tauto | intros instances ?].
    apply gated_bind; [stage_events; exact I | intros].
    apply gated_bind; [stage_events; exact I | intros].
    destruct instances as [| i rest]; [apply gated_quiet; constructor |].
    apply gated_bind; [stage_events; exact I | intros].
    apply gated_bind; [| intros; apply gated_input].
    stage_events; cbn in *; try tauto; exact I.
  - apply gated_bind; [stage_events; exact I | intros].
    apply gated_bind; [stage_events; exact I | intros].
    apply gated_bind; [stage_events; cbn in *; tauto | intros instances ?].
    apply gated_bind; [stage_events; exact I | intros].
    apply gated_bind; [stage_events; exact I | intros].
    destruct instances as [| i rest]; [apply gated_quiet; constructor |].
    apply gated_bind; [stage_events; exact I | intros].
    apply gated_bind; [stage_events; cbn in *; try tauto; exact I | intros].
    apply gated_bind; [stage_events; exact I | intros].
    apply gated_bind; [stage_events; exact I | intros].
    apply gated_bind; [stage_events; cbn in *; tauto | intros].
    apply gated_bind; [stage_events; exact I | intros].
    apply gated_bind; [stage_events; exact I | intros].
    apply gated_input.
Qed.

Lemma neutral_calls tr :
  Forall neutral tr -> terminate_calls tr = [] /\ image_calls tr = [].
Proof.
  induction 1 as [| e rest He _ [IH1 IH2]]; [split; reflexivity |].
  destruct e; cbn in *; try contradiction; auto.
Qed.

Lemma no_terminate_calls tr :
  Forall not_terminate tr -> terminate_calls tr = [].
Proof.
  induction 1 as [| e rest He _ IH]; [reflexivity |].
  destruct e; cbn in *; try contradiction; auto.
Qed.

Lemma backed_up_bind {A B : Type} (m : M W A) (f : A -> M W B) w :
  Forall neutral (trace_of (m w)) ->
  (forall a w1, backed_up (trace_of (f a w1))) ->
  backed_up (trace_of (bind m f w)).
Proof.
  intros Hm Hf. destruct (neutral_calls _ Hm) as (Hterm & _).
  unfold bind. destruct (m w) as [[[a | e |] w1] t1];
    cbn [trace_of snd] in *;
    try (intros ids r Hin; rewrite Hterm in Hin; contradiction).
  specialize (Hf a w1). destruct (f a w1) as [[r w2] t2].
  cbn [trace_of snd] in *.
  intros ids r' Hin. rewrite terminate_calls_app, Hterm in Hin.
  destruct (Hf ids r' Hin) as (req & image_id & Hids & Himg).
  exists req, image_id. split; [exact Hids |].
  rewrite image_calls_app. apply in_or_app. right. exact Himg.
Qed.

(** The termination calls of [terminate_instances] are for the instances
    of its input, one instance a call. *)
Lemma terminate_instances_targets results w :
  Forall (targets results)
         (trace_of (terminate_instances ec2_client host results w)).
Proof.
  pose proof (terminate_instances_events ec2_client host results w) as Hev.
  destruct (terminate_loop_run ec2_client host results [] w)
    as (_ & _ & _ & Hcalls & _).
  fold (terminate_instances ec2_client host results) in Hcalls.
  apply Forall_forall. intros e Hin.
  rewrite Forall_forall in Hev. specialize (Hev e Hin).
  destruct e; cbn in *; try contradiction; try exact I.
  rewrite <- Hcalls. apply in_map_iff. exists (instance_ids, r).
  split; [reflexivity |].
  unfold terminate_calls. apply in_flat_map.
  eexists. split; [exact Hin |]. left. reflexivity.
Qed.

Lemma backed_up_stage tb rest results :
  terminate_calls tb = [] ->
  Forall (targets results) rest ->
  Forall (fun result =>
            exists req,
              Boto3.img_InstanceId req = instance_id result
              /\ In (req, inr (ami_id result)) (image_calls tb))
         results ->
  backed_up (tb ++ rest).
Proof.
  intros Hnone Htargets Himaged ids r Hin.
  rewrite terminate_calls_app, Hnone in Hin. cbn [app] in Hin.
  unfold terminate_calls in Hin. apply in_flat_map in Hin.
  destruct Hin as (e & He & Hcall).
  rewrite Forall_forall in Htargets. specialize (Htargets e He).
  destruct e; cbn in Hcall; try contradiction.
  destruct Hcall as [Hcall | []]. injection Hcall as -> ->.
  cbn in Htargets. apply in_map_iff in Htargets.
  destruct Htargets as (result & <- & Hresult).
  rewrite Forall_forall in Himaged.
  destruct (Himaged result Hresult) as (req & Hid & Himg).
  exists req, (ami_id result). rewrite Hid. split; [reflexivity |].
  rewrite image_calls_app. apply in_or_app. left. exact Himg.
Qed.

(** X20. No run of [main] terminates an instance that has no image: every
    termination call of a run is for one instance, and a [create_image]
    call of the same run for that instance returned an image. *)
Theorem main_terminates_only_imaged fuel w :
  backed_up (trace_of (main ec2_client host fuel w)).
Proof.
  unfold main.
  apply backed_up_bind; [stage_events; exact I | intros].
  apply backed_up_bind; [stage_events; exact I | intros].
  apply backed_up_bind; [stage_events; cbn in *; tauto | intros instances ?].
  apply backed_up_bind; [stage_events; exact I | intros].
  apply backed_up_bind; [stage_events; exact I | intros].
  destruct instances as [| i rest]; [intros ids r []|].
  apply backed_up_bind; [stage_events; exact I | intros].
  apply backed_up_bind;
    [stage_events; cbn in *; try tauto; exact I | intros instances ?].
  apply backed_up_bind; [stage_events; exact I | intros].
  apply backed_up_bind; [stage_events; exact I | intros].
  match goal with
  | |- backed_up (trace_of (bind _ _ ?w0)) =>
      pose proof (backup_instances_events ec2_client host instances w0) as Hev;
        pose proof (backup_loop_imaged ec2_client host instances [] w0) as Himg;
        fold (backup_instances ec2_client host instances) in Himg;
        destruct (backup_instances ec2_client host instances w0)
          as [[[results | e |] wb] tb] eqn:Eb
  end; cbn [result_of trace_of fst snd] in Hev, Himg.
  - assert (Hnone : terminate_calls tb = []).
    { apply no_terminate_calls. eapply Forall_impl; [| exact Hev].
      intros []; cbn; tauto. }
    rewrite (trace_bind_val _ _ _ _ _ _ Eb).
    destruct (Himg results eq_refl) as (outs & Hall & Himaged).
    cbn [app] in Hall. subst outs.
    apply (backed_up_stage tb _ results Hnone); [| exact Himaged].
    cbv beta.
    apply trace_bind_all; [stage_events; exact I | intros].
    apply trace_bind_all; [stage_events; exact I | intros].
    apply trace_bind_all; [stage_events; exact I | intros].
    apply trace_bind_all; [stage_events; exact I | intros].
    apply trace_bind_all; [apply terminate_instances_targets | intros].
    stage_events; exact I.
  - rewrite (bind_exn _ _ _ _ _ _ Eb). cbn [trace_of snd].
    intros ids r Hin.
    assert (Hnone : terminate_calls tb = []).
    { apply no_terminate_calls. eapply Forall_impl; [| exact Hev].
      intros []; cbn; tauto. }
    rewrite Hnone in Hin. contradiction.
  - rewrite (bind_out_of_fuel _ _ _ _ _ Eb). cbn [trace_of snd].
    intros ids r Hin.
    assert (Hnone : terminate_calls tb = []).
    { apply no_terminate_calls. eapply Forall_impl; [| exact Hev].
      intros []; cbn; tauto. }
    rewrite Hnone in Hin. contradiction.
Qed.









Lemma trace_bind_val_all {A B : Type} (P : event -> Prop)
    (m : M W A) (f : A -> M W B) w a w1 t1 :
  m w = (Val a, w1, t1) ->
  Forall P t1 ->
  Forall P (trace_of (f a w1)) ->
  Forall P (trace_of (bind m f w)).
Proof.
  intros E H1 H2. rewrite (trace_bind_val _ _ _ _ _ _ E).
  apply Forall_app. split; assumption.
Qed.

Lemma any_protection_none instances :
  Forall (fun i => termination_protection i = false
                   /\ stop_protection i = false) instances ->
  any_protection instances = false.
Proof.
  induction 1 as [| i rest [Ht Hs] _ IH]; cbn; [reflexivity |].
  rewrite Ht, Hs. exact IH.
Qed.

Lemma backup_prompt_other : backup_prompt <> protections_prompt.
Proof. intros H. vm_compute in H. discriminate H. Qed.

Lemma terminate_prompt_other : terminate_prompt <> protections_prompt.
Proof. intros H. vm_compute in H. discriminate H. Qed.

(** X21. When no record of the first listing carries a protection flag,
    [main] leaves the protections alone on the whole run: it does not ask
    the protection question and makes no attribute change. *)
Theorem main_skips_guard_without_protection fuel w instances :
  result_of (list_instances ec2_client fuel main_tags w) = Val instances ->
  Forall (fun i => termination_protection i = false
                   /\ stop_protection i = false) instances ->
  Forall guard_free (trace_of (main ec2_client host fuel w)).
Proof.
  intros H Hnone. apply any_protection_none in Hnone.
  pose proof (list_instances_listing ec2_client fuel main_tags w) as Hread.
  destruct (list_instances ec2_client fuel main_tags w) as [[r w1] t1] eqn:E.
  cbn [result_of trace_of fst snd] in H, Hread. subst r.
  destruct (display_data_run (map instance_info_dict instances) w1)
    as (tr & Hd & _).
  pose proof (display_data_all guard_free (map instance_info_dict instances) w1
                (fun _ _ => I)) as Htr.
  rewrite Hd in Htr. cbn [trace_of snd] in Htr.
  unfold main.
  eapply trace_bind_val_all; [reflexivity | repeat constructor |].
  cbv zeta.
  eapply trace_bind_val_all; [reflexivity | repeat constructor |].
  eapply trace_bind_val_all; [exact E | |].
  { eapply Forall_impl; [| exact Hread]. intros []; cbn; tauto. }
  eapply trace_bind_val_all; [exact Hd | exact Htr |].
  eapply trace_bind_val_all; [reflexivity | repeat constructor |].
  destruct instances as [| i rest]; [constructor |].
  eapply trace_bind_val_all; [reflexivity | repeat constructor |].
  rewrite Hnone.
  stage_events;
    first [ exact I
          | solve [cbn in *; tauto]
          | exact backup_prompt_other
          | exact terminate_prompt_other ].
Qed.

Lemma modify_calls_app t1 t2 :
  modify_calls (t1 ++ t2) = modify_calls t1 ++ modify_calls t2.
Proof. apply flat_map_app. Qed.

Lemma no_modify_calls tr : Forall not_modify tr -> modify_calls tr = [].
Proof.
  induction 1 as [| e rest He _ IH]; [reflexivity |].
  destruct e; cbn in *; try contradiction; auto.
Qed.

Lemma modify_calls_bind_val {A B : Type}
    (m : M W A) (f : A -> M W B) w a w1 t1 :
  m w = (Val a, w1, t1) ->
  Forall not_modify t1 ->
  modify_calls (trace_of (bind m f w)) = modify_calls (trace_of (f a w1)).
Proof.
  intros E H. rewrite (trace_bind_val _ _ _ _ _ _ E), modify_calls_app.
  rewrite (no_modify_calls _ H). reflexivity.
Qed.

Lemma modify_calls_bind_l {A B : Type} (m : M W A) (f : A -> M W B) w :
  (forall a w1, Forall not_modify (trace_of (f a w1))) ->
  modify_calls (trace_of (bind m f w)) = modify_calls (trace_of (m w)).
Proof.
  intros H. unfold bind. destruct (m w) as [[[a | e |] w1] t1]; try reflexivity.
  specialize (H a w1). destruct (f a w1) as [[r w2] t2].
  cbn [trace_of snd] in *.
  rewrite modify_calls_app, (no_modify_calls _ H), app_nil_r. reflexivity.
Qed.

Lemma result_bind_raises {A B : Type} (m : M W A) (f : A -> M W B) w e :
  result_of (m w) = Exn e -> result_of (bind m f w) = Exn e.
Proof.
  unfold bind. destruct (m w) as [[[a | e' |] w1] t1]; cbn; try discriminate.
  intros H. injection H as ->. reflexivity.
Qed.

(** Clearing both protections of one instance. *)
Lemma clear_instance_cases instance_id w :
  exists failure,
    made_until_failure (clear_requests instance_id)
      (modify_calls
         (trace_of (disable_instance_protections ec2_client instance_id
                      true true w)))
      failure
    /\ result_of (disable_instance_protections ec2_client instance_id
                    true true w)
       = match failure with
         | None => Val tt
         | Some err => Exn (ProviderExn err)
         end.
Proof.
  unfold disable_instance_protections, bind, ret,
    ec2_modify_instance_attribute, client_call, clear_requests.
  repeat match goal with
    | |- context [Boto3.modify_instance_attribute ?c ?i ?a ?v ?w0] =>
        destruct (Boto3.modify_instance_attribute c i a v w0)
          as [[?err | []] ?w]; cbn
    end.
  - exists (Some err). split; [| reflexivity].
    exists [], (instance_id, "DisableApiTermination", false),
      [(instance_id, "DisableApiStop", false)]. split; reflexivity.
  - exists (Some err). split; [| reflexivity].
    exists [(instance_id, "DisableApiTermination", false)],
      (instance_id, "DisableApiStop", false), []. split; reflexivity.
  - exists None. split; reflexivity.
Qed.

(** The loop of [main] that clears the protections of every instance. *)
Lemma clear_loop_run instances : forall w,
  exists failure,
    made_until_failure
      (flat_map (fun i => clear_requests (inst_id i)) instances)
      (modify_calls
         (trace_of (for_each instances
                      (fun instance _ =>
                         disable_instance_protections ec2_client
                           (inst_id instance) true true)
                      tt w)))
      failure
    /\ result_of (for_each instances
                    (fun instance _ =>
                       disable_instance_protections ec2_client
                         (inst_id instance) true true)
                    tt w)
       = match failure with
         | None => Val tt
         | Some err => Exn (ProviderExn err)
         end.
Proof.
  induction instances as [| i rest IH]; intros w.
  - exists None. split; reflexivity.
  - rewrite for_each_step. cbn [flat_map].
    destruct (clear_instance_cases (inst_id i) w) as ([err |] & Hcalls & Hr);
      rewrite Hr; cbn [result_of trace_of world_of fst snd].
    + exists (Some err). split; [| reflexivity].
      destruct Hcalls as (before & req & after & Hexp & Hcalls).
      exists before, req, (after ++ flat_map (fun i => clear_requests (inst_id i)) rest).
      rewrite Hexp, <- app_assoc. split; [reflexivity | exact Hcalls].
    + match goal with
      | |- context [for_each rest _ ?u ?w1] =>
          destruct u; destruct (IH w1) as (failure & Hrest & Hres)
      end.
      exists failure. split; [| exact Hres].
      rewrite modify_calls_app. cbn in Hcalls. rewrite Hcalls.
      destruct failure as [err |]; cbn in Hrest |- *.
      * destruct Hrest as (before & req & after & Hexp & Hrest).
        exists (clear_requests (inst_id i) ++ before), req, after.
        rewrite Hexp, Hrest, map_app, <- !app_assoc. split; reflexivity.
      * rewrite Hrest. reflexivity.
Qed.

(** X22. When the first listing shows a protection and the operator's
    reply, lowered, is "y", [main] clears both protections of every listed
    instance, protected or not, in the order of the listing and termination
    before stop, and these are all the attribute changes of the run.  It
    stops at the first change the provider rejects: [main] then raises that
    error, and the later instances keep their protections. *)
Theorem main_clears_every_instance fuel w instances reply w2 :
  result_of (list_instances ec2_client fuel main_tags w) = Val instances ->
  Exists (fun i => termination_protection i = true
                   \/ stop_protection i = true) instances ->
  host_input host protections_prompt
    (world_of (list_instances ec2_client fuel main_tags w)) = (reply, w2) ->
  lower reply = "y" ->
  exists failure,
    made_until_failure
      (flat_map (fun i => clear_requests (inst_id i)) instances)
      (modify_calls (trace_of (main ec2_client host fuel w)))
      failure
    /\ forall err,
         failure = Some err ->
         result_of (main ec2_client host fuel w) = Exn (ProviderExn err).
Proof.
  intros H Hex Hin Hlow.
  apply any_protection_exists in Hex.
  apply String.eqb_eq in Hlow.
  pose proof (list_instances_listing ec2_client fuel main_tags w) as Hread.
  destruct (list_instances ec2_client fuel main_tags w) as [[r w1] t1] eqn:E.
  cbn [result_of trace_of world_of fst snd] in H, Hread, Hin. subst r.
  destruct (display_data_run (map instance_info_dict instances) w1)
    as (tr & Hd & _).
  pose proof (display_data_all not_modify (map instance_info_dict instances) w1
                (fun _ _ => I)) as Htr.
  rewrite Hd in Htr. cbn [trace_of snd] in Htr.
  assert (Hlist : Forall not_modify t1).
  { eapply Forall_impl; [| exact Hread]. intros []; cbn; tauto. }
  assert (Hasked : input host protections_prompt w1
                   = (Val reply, w2, [EvInput protections_prompt reply])).
  { unfold input. rewrite Hin. reflexivity. }
  destruct instances as [| i rest]; [discriminate |].
  destruct (clear_loop_run (i :: rest) w2) as (failure & Hcalls & Hres).
  exists failure. split.
  - unfold main.
    rewrite (modify_calls_bind_val _ _ w tt w [EvPrint _] eq_refl)
      by (repeat constructor).
    cbv zeta.
    rewrite (modify_calls_bind_val _ _ w tt w [EvPrint _] eq_refl)
      by (repeat constructor).
    rewrite (modify_calls_bind_val _ _ _ _ _ _ E) by exact Hlist.
    rewrite (modify_calls_bind_val _ _ _ _ _ _ Hd) by exact Htr.
    rewrite (modify_calls_bind_val _ _ w1 tt w1 [EvPrint _] eq_refl)
      by (repeat constructor).
    rewrite (modify_calls_bind_val _ _ w1 tt w1 [EvPrint _] eq_refl)
      by (repeat constructor).
    rewrite Hex.
    rewrite modify_calls_bind_l
      by (intros; stage_events; first [exact I | solve [cbn in *; tauto]]).
    rewrite (modify_calls_bind_val _ _ w1 tt w1 [EvPrint _] eq_refl)
      by (repeat constructor).
    rewrite (modify_calls_bind_val _ _ _ _ _ _ Hasked) by (repeat constructor).
    rewrite Hlow.
    rewrite modify_calls_bind_l
      by (intros; stage_events; first [exact I | solve [cbn in *; tauto]]).
    exact Hcalls.
  - intros err ->. unfold main.
    rewrite (result_bind_val _ _ w tt w [EvPrint _] eq_refl). cbv zeta.
    rewrite (result_bind_val _ _ w tt w [EvPrint _] eq_refl).
    rewrite (result_bind_val _ _ _ _ _ _ E).
    rewrite (result_bind_val _ _ _ _ _ _ Hd).
    rewrite (result_bind_val _ _ w1 tt w1 [EvPrint _] eq_refl).
    rewrite (result_bind_val _ _ w1 tt w1 [EvPrint _] eq_refl).
    rewrite Hex.
    apply result_bind_raises.
    rewrite (result_bind_val _ _ w1 tt w1 [EvPrint _] eq_refl).
    rewrite (result_bind_val _ _ _ _ _ _ Hasked).
    rewrite Hlow.
    apply result_bind_raises. exact Hres.
Qed.

Lemma prompts_app t1 t2 : prompts (t1 ++ t2) = prompts t1 ++ prompts t2.
Proof. apply flat_map_app. Qed.

Lemma silent_prompts tr : Forall silent tr -> prompts tr = [].
Proof.
  induction 1 as [| e rest He _ IH]; [reflexivity |].
  destruct e; cbn in *; try discriminate; auto.
Qed.

Lemma begins_nil {A : Type} (script : list A) : begins [] script.
Proof. exists script. reflexivity. Qed.

Lemma begins_silent_bind {A B : Type} script
    (m : M W A) (f : A -> M W B) w :
  Forall silent (trace_of (m w)) ->
  (forall a w1, begins (prompts (trace_of (f a w1))) script) ->
  begins (prompts (trace_of (bind m f w))) script.
Proof.
  intros Hm Hf. apply silent_prompts in Hm. unfold bind.
  destruct (m w) as [[[a | e |] w1] t1]; cbn [trace_of snd] in *;
    try (rewrite Hm; apply begins_nil).
  specialize (Hf a w1). destruct (f a w1) as [[r w2] t2].
  cbn [trace_of snd] in *. rewrite prompts_app, Hm. exact Hf.
Qed.

Lemma begins_input_bind {B : Type} prompt script (f : string -> M W B) w :
  (forall a w1, begins (prompts (trace_of (f a w1))) script) ->
  begins (prompts (trace_of (bind (input host prompt) f w))) (prompt :: script).
Proof.
  intros Hf. unfold bind, input.
  destruct (host_input host prompt w) as [reply w1].
  specialize (Hf reply w1). destruct (f reply w1) as [[r w2] t2].
  cbn [trace_of snd app prompts flat_map] in *.
  destruct Hf as (rest & ->). exists rest. reflexivity.
Qed.

(** A block that asks exactly [asked], followed by a block that asks the
    beginning of [script]. *)
Lemma begins_asked_bind {A B : Type} asked script
    (m : M W A) (f : A -> M W B) w :
  prompts (trace_of (m w)) = asked ->
  (forall a w1, begins (prompts (trace_of (f a w1))) script) ->
  begins (prompts (trace_of (bind m f w))) (asked ++ script).
Proof.
  intros Hm Hf. unfold bind.
  destruct (m w) as [[[a | e |] w1] t1]; cbn [trace_of snd] in *;
    try (rewrite Hm; exists script; reflexivity).
  specialize (Hf a w1). destruct (f a w1) as [[r w2] t2].
  cbn [trace_of snd] in *. rewrite prompts_app, Hm.
  destruct Hf as (rest & ->). exists rest. rewrite app_assoc. reflexivity.
Qed.

Lemma prompts_bind_l {A B : Type} (m : M W A) (f : A -> M W B) w :
  (forall a w1, Forall silent (trace_of (f a w1))) ->
  prompts (trace_of (bind m f w)) = prompts (trace_of (m w)).
Proof.
  intros H. unfold bind. destruct (m w) as [[[a | e |] w1] t1]; try reflexivity.
  specialize (H a w1). destruct (f a w1) as [[r w2] t2].
  cbn [trace_of snd] in *.
  rewrite prompts_app, (silent_prompts _ H), app_nil_r. reflexivity.
Qed.

Lemma begins_silent script tr : Forall silent tr -> begins (prompts tr) script.
Proof. intros H. rewrite (silent_prompts _ H). apply begins_nil. Qed.

Lemma begins_val_bind {A B : Type} script
    (m : M W A) (f : A -> M W B) w a w1 t1 :
  m w = (Val a, w1, t1) ->
  Forall silent t1 ->
  begins (prompts (trace_of (f a w1))) script ->
  begins (prompts (trace_of (bind m f w))) script.
Proof.
  intros E Hs Hf. rewrite (trace_bind_val _ _ _ _ _ _ E), prompts_app.
  rewrite (silent_prompts _ Hs). exact Hf.
Qed.

(** The stages of [main] after the protections ask the backup prompt, then
    the termination prompt. *)
Lemma stages_questions instances w0 :
  begins
    (prompts
       (trace_of
          (bind (input host backup_prompt)
             (fun _ =>
                bind (print (newline ++ "Backing up instances..."
                             ++ newline)%string)
                  (fun _ =>
                     bind (backup_instances ec2_client host instances)
                       (fun backup_results =>
                          bind (print EmptyString)
                            (fun _ =>
                               bind (display_data
                                       (map backup_result_dict backup_results))
                                 (fun _ =>
                                    bind (input host terminate_prompt)
                                      (fun _ =>
                                         bind (print
                                                 (newline
                                                  ++ "Terminating instances that have already been backed up..."
                                                  ++ newline)%string)
                                           (fun _ =>
                                              bind (terminate_instances
                                                      ec2_client host
                                                      backup_results)
                                                (fun terminate_results =>
                                                   bind (print EmptyString)
                                                     (fun _ =>
                                                        display_data
                                                          (map terminate_result_dict
                                                             terminate_results))))))))))
             w0)))
    [backup_prompt; terminate_prompt].
Proof.
  apply begins_input_bind. intros.
  apply begins_silent_bind; [stage_events; reflexivity | intros].
  apply begins_silent_bind;
    [stage_events; first [reflexivity | solve [cbn in *; tauto]] | intros].
  apply begins_silent_bind; [stage_events; reflexivity | intros].
  apply begins_silent_bind; [stage_events; reflexivity | intros].
  apply begins_input_bind. intros.
  apply begins_silent_bind; [stage_events; reflexivity | intros].
  apply begins_silent_bind;
    [stage_events; first [reflexivity | solve [cbn in *; tauto]] | intros].
  apply begins_silent_bind; [stage_events; reflexivity | intros].
  apply begins_silent. stage_events; reflexivity.
Qed.

(** X24. The questions of a run.  [main] asks the operator at most three
    things, in this order: the protection question (only when the first
    listing shows a protection), the backup prompt, the termination prompt.
    No question is asked twice; in particular the protections are not
    checked again after they were cleared and the instances listed anew. *)
Theorem main_questions fuel w :
  begins (prompts (trace_of (main ec2_client host fuel w)))
         [protections_prompt; backup_prompt; terminate_prompt]
  \/ begins (prompts (trace_of (main ec2_client host fuel w)))
            [backup_prompt; terminate_prompt].
Proof.
  pose proof (list_instances_listing ec2_client fuel main_tags w) as Hread.
  assert (Hquiet : Forall silent
                     (trace_of (list_instances ec2_client fuel main_tags w))).
  { eapply Forall_impl; [| exact Hread]. intros e He.
    apply listing_harmless. exact He. }
  clear Hread.
  destruct (list_instances ec2_client fuel main_tags w)
    as [[[instances | e |] w1] t1] eqn:E; cbn [trace_of snd] in Hquiet.
  - destruct (display_data_run (map instance_info_dict instances) w1)
      as (tr & Hd & _).
    pose proof (display_data_all silent (map instance_info_dict instances) w1
                  (fun _ _ => eq_refl)) as Htr.
    rewrite Hd in Htr. cbn [trace_of snd] in Htr.
    destruct (any_protection instances) eqn:Hany; [left | right]; unfold main;
      (eapply begins_val_bind; [reflexivity | repeat constructor |]);
      cbv zeta;
      (eapply begins_val_bind; [reflexivity | repeat constructor |]);
      (eapply begins_val_bind; [exact E | exact Hquiet |]);
      (eapply begins_val_bind; [exact Hd | exact Htr |]);
      (eapply begins_val_bind; [reflexivity | repeat constructor |]);
      (destruct instances as [| i rest]; [apply begins_nil |]);
      (eapply begins_val_bind; [reflexivity | repeat constructor |]);
      rewrite Hany.
    + apply (begins_asked_bind [protections_prompt]);
        [| intros; apply stages_questions].
      rewrite (trace_bind_val _ _ w1 tt w1 [EvPrint _] eq_refl), prompts_app.
      rewrite prompts_bind_l
        by (intros; stage_events; first [reflexivity | solve [cbn in *; tauto]]).
      unfold input. destruct (host_input host protections_prompt w1).
      reflexivity.
    + apply begins_silent_bind; [stage_events; reflexivity | intros].
      apply stages_questions.
  - left. unfold main.
    eapply begins_val_bind; [reflexivity | repeat constructor |].
    cbv zeta.
    eapply begins_val_bind; [reflexivity | repeat constructor |].
    rewrite (bind_exn _ _ _ _ _ _ E). apply begins_silent. exact Hquiet.
  - left. unfold main.
    eapply begins_val_bind; [reflexivity | repeat constructor |].
    cbv zeta.
    eapply begins_val_bind; [reflexivity | repeat constructor |].
    rewrite (bind_out_of_fuel _ _ _ _ _ E). apply begins_silent. exact Hquiet.
Qed.

(** *** Images and listings *)

Lemma listed_ids_app t1 t2 : listed_ids (t1 ++ t2) = listed_ids t1 ++ listed_ids t2.
Proof.
  unfold listed_ids, raw_instances.
  rewrite pages_received_app, flat_map_app, filter_app, map_app. reflexivity.
Qed.

Lemma image_in_mono L L' e : incl L L' -> image_in L e -> image_in L' e.
Proof. intros H. destruct e; cbn; auto. Qed.

Lemma images_listed_mono tr : forall L L',
  incl L L' -> images_listed L tr -> images_listed L' tr.
Proof.
  induction tr as [| e rest IH]; intros L L' Hincl; cbn; [auto |].
  intros [He Hrest]. split; [eapply image_in_mono; eassumption |].
  eapply IH; [| exact Hrest]. apply incl_app_app; [exact Hincl | apply incl_refl].
Qed.

Lemma images_listed_app t1 : forall L t2,
  images_listed L t1 ->
  images_listed (L ++ listed_ids t1) t2 ->
  images_listed L (t1 ++ t2).
Proof.
  induction t1 as [| e rest IH]; intros L t2 H1 H2; cbn [app].
  - cbn in H2. rewrite app_nil_r in H2. exact H2.
  - destruct H1 as [He Hrest]. split; [exact He |].
    apply IH; [exact Hrest |].
    change (e :: rest) with ([e] ++ rest) in H2.
    rewrite listed_ids_app, app_assoc in H2. exact H2.
Qed.

Lemma images_listed_all tr : forall L,
  Forall (image_in L) tr -> images_listed L tr.
Proof.
  induction tr as [| e rest IH]; intros L H; cbn; [exact I |].
  inversion H as [| ? ? He Hrest]; subst. split; [exact He |].
  apply IH. eapply Forall_impl; [| exact Hrest].
  intros e'. apply image_in_mono. apply incl_appl. apply incl_refl.
Qed.

Lemma yields_bind {A B : Type} L (m : M W A) (f : A -> M W B) Q R :
  yields L m Q ->
  (forall a L', Q a L' -> yields L' (f a) R) ->
  yields L (bind m f) R.
Proof.
  intros Hm Hf w. specialize (Hm w). unfold bind.
  destruct (m w) as [[[a | e |] w1] t1];
    cbn [trace_of result_of fst snd] in *; destruct Hm as [Ht Hq];
    try (split; [exact Ht | discriminate]).
  specialize (Hf a _ (Hq a eq_refl) w1).
  destruct (f a w1) as [[r w2] t2]. cbn [trace_of result_of fst snd] in *.
  destruct Hf as [Ht2 Hr]. split.
  - apply images_listed_app; assumption.
  - intros b Hb. rewrite listed_ids_app, app_assoc. apply Hr. exact Hb.
Qed.

Lemma yields_all {A : Type} L (m : M W A) :
  (forall w, Forall (image_in L) (trace_of (m w))) ->
  yields L m (fun _ L' => incl L L').
Proof.
  intros H w. split; [apply images_listed_all; apply H |].
  intros a _. apply incl_appl. apply incl_refl.
Qed.

Lemma yields_ret {A : Type} L (a : A) (Q : A -> list string -> Prop) :
  Q a L -> yields (W := W) L (ret a) Q.
Proof.
  intros H w. split; [exact I |]. cbn. intros a' Ha. injection Ha as <-.
  rewrite app_nil_r. exact H.
Qed.

Lemma yields_raise {A : Type} L e (Q : A -> list string -> Prop) :
  yields (W := W) L (raise e) Q.
Proof. intros w. split; [exact I | cbn; discriminate]. Qed.

Lemma yields_weaken {A : Type} L (m : M W A) (Q Q' : A -> list string -> Prop) :
  yields L m Q -> (forall a L', Q a L' -> Q' a L') -> yields L m Q'.
Proof.
  intros H HQ w. destruct (H w) as [Ht Hq]. split; [exact Ht |].
  intros a Ha. apply HQ. apply Hq. exact Ha.
Qed.

Lemma listed_mono L L' (infos : list instance_info) :
  incl L L' ->
  Forall (fun i => In (inst_id i) L) infos ->
  Forall (fun i => In (inst_id i) L') infos.
Proof.
  intros Hincl H. eapply Forall_impl; [| exact H]. intros i. apply Hincl.
Qed.

Lemma summary_ids infos : forall l,
  map summary infos = map summary_of l ->
  map inst_id infos = map Boto3.InstanceId l.
Proof.
  induction infos as [| info rest IH]; intros [| i l] H; try discriminate;
    [reflexivity |].
  cbn in H. injection H as _ Hid _ Hrest. cbn. rewrite Hid, (IH l Hrest).
  reflexivity.
Qed.

(** A listing images nothing, and what it returns is then listed. *)
Lemma yields_list_instances L fuel tags :
  yields L (list_instances ec2_client fuel tags)
         (fun infos L' => incl L L' /\ Forall (fun i => In (inst_id i) L') infos).
Proof.
  intros w. split.
  - apply images_listed_all.
    apply list_instances_all. intros [] H; cbn in *; tauto.
  - intros infos H. split; [apply incl_appl; apply incl_refl |].
    destruct (list_instances_returned ec2_client _ _ _ _ H) as (Hsum & _).
    apply summary_ids in Hsum.
    apply Forall_forall. intros i Hi. apply in_or_app. right.
    unfold listed_ids. rewrite <- Hsum. apply in_map. exact Hi.
Qed.

(** The image requests of [backup_instances] are for its instances. *)
Lemma backup_instances_images L instances w :
  Forall (fun i => In (inst_id i) L) instances ->
  Forall (image_in L)
         (trace_of (backup_instances ec2_client host instances w)).
Proof.
  intros HL. unfold backup_instances. revert w.
  generalize (@nil backup_result).
  induction instances as [| instance rest IH]; intros results w;
    [constructor |].
  inversion HL as [| ? ? Hin Hrest]; subst.
  cbn [for_each]. apply trace_bind_all; [| intros; apply IH; exact Hrest].
  unfold backup_instance.
  apply trace_bind_all; [| intros; constructor].
  pose proof (create_ami_images_for ec2_client host instance w) as Hreq.
  apply Forall_forall. intros e He.
  destruct e; cbn; try exact I.
  rewrite Forall_forall in Hreq.
  assert (Hcall : In (req, r)
                     (image_calls
                        (trace_of (create_ami ec2_client host instance w)))).
  { unfold image_calls. apply in_flat_map. eexists. split; [exact He |].
    left. reflexivity. }
  specialize (Hreq _ Hcall). cbn in Hreq. rewrite Hreq. exact Hin.
Qed.

Ltac quiet_step L H :=
  eapply yields_bind;
  [ apply yields_all; intros; stage_events;
    first [exact I | solve [cbn in *; tauto]]
  | cbv beta; intros ? L H ].

(** X25. [main] images only what it listed: every [create_image] call of a
    run is for an instance that a [describe_instances] call made earlier in
    the same run returned in the state running, stopping or stopped. *)
Theorem main_images_only_listed fuel w :
  images_listed [] (trace_of (main ec2_client host fuel w)).
Proof.
  cut (yields [] (main ec2_client host fuel) (fun _ _ => True));
    [intros H; apply H |].
  unfold main.
  quiet_step La Ha. quiet_step Lb Hb.
  eapply yields_bind; [apply yields_list_instances |].
  cbv beta. intros instances L1 [_ Hlisted].
  quiet_step L2 H2. apply (listed_mono _ _ _ H2) in Hlisted.
  quiet_step L3 H3. apply (listed_mono _ _ _ H3) in Hlisted.
  destruct instances as [| i rest]; [apply yields_ret; exact I |].
  quiet_step L4 H4. apply (listed_mono _ _ _ H4) in Hlisted.
  eapply (yields_bind _ _ _
            (fun instances' L' => Forall (fun i => In (inst_id i) L') instances')).
  - destruct (any_protection (i :: rest)).
    + quiet_step L5 H5. quiet_step L6 H6.
      match goal with
      | |- context [lower ?reply =? "y"] => destruct (lower reply =? "y")
      end.
      * quiet_step L7 H7. quiet_step L8 H8.
        eapply yields_bind; [apply yields_list_instances |].
        cbv beta. intros instances2 L9 [_ Hlisted2].
        quiet_step L10 H10. apply yields_ret.
        eapply listed_mono; eassumption.
      * quiet_step L7 H7. apply yields_raise.
    + quiet_step L5 H5. apply yields_ret. eapply listed_mono; eassumption.
  - cbv beta. intros instances' L' Hlisted'.
    quiet_step L5 H5. apply (listed_mono _ _ _ H5) in Hlisted'.
    quiet_step L6 H6. apply (listed_mono _ _ _ H6) in Hlisted'.
    eapply yields_bind.
    + apply yields_all. intros. apply backup_instances_images. exact Hlisted'.
    + cbv beta. intros.
      eapply yields_weaken; [| intros; exact I].
      apply yields_all. intros. stage_events;
        first [exact I | solve [cbn in *; tauto]].
Qed.

End Orchestration.

(** ** Image names *)

Lemma string_length_append a b :
  String.length (a ++ b) = String.length a + String.length b.
Proof. induction a as [| c a IH]; cbn; [reflexivity | rewrite IH; reflexivity]. Qed.

Lemma append_same_length_l a : forall c b d,
  String.length a = String.length c -> a ++ b = c ++ d -> a = c /\ b = d.
Proof.
  induction a as [| x a IH]; intros [| y c] b d Hlen H; cbn in *;
    try discriminate; [auto |].
  injection H as -> H. injection Hlen as Hlen.
  destruct (IH c b d Hlen H) as [-> ->]. auto.
Qed.

Lemma append_same_length_r a c b d :
  String.length b = String.length d -> a ++ b = c ++ d -> a = c /\ b = d.
Proof.
  intros Hlen H. apply append_same_length_l; [| exact H].
  apply (f_equal String.length) in H.
  rewrite !string_length_append in H. lia.
Qed.

Lemma zeros_length k : String.length (zeros k) = k.
Proof. induction k as [| k IH]; cbn; [reflexivity | rewrite IH; reflexivity]. Qed.

Lemma string_of_uint_length d :
  String.length (NilEmpty.string_of_uint d) = Decimal.nb_digits d.
Proof. induction d; cbn; congruence. Qed.

Lemma dec_length n :
  String.length (dec n)
  = Decimal.nb_digits (Nat.to_little_uint n Decimal.zero).
Proof.
  unfold dec, Nat.to_uint.
  rewrite string_of_uint_length. apply DecimalFacts.nb_digits_rev.
Qed.

Lemma short_run_digits k : forall d width,
  short_run k d width = true ->
  forall j, j <= k -> Decimal.nb_digits (Nat.to_little_uint j d) <= width.
Proof.
  induction k as [| k IH]; intros d width H j Hj; cbn in H;
    apply andb_prop in H; destruct H as [Hd Hrest];
    apply Nat.leb_le in Hd.
  - replace j with 0 by lia. exact Hd.
  - destruct j as [| j]; [exact Hd |].
    cbn [Nat.to_little_uint]. apply (IH _ _ Hrest). lia.
Qed.

Lemma read_number_dec n : read_number (dec n) = n.
Proof.
  unfold read_number, dec. rewrite NilEmpty.usu.
  apply DecimalNat.Unsigned.of_to.
Qed.

Lemma read_number_zeros k s : read_number (zeros k ++ s) = read_number s.
Proof.
  induction k as [| k IH]; [reflexivity |].
  unfold read_number in *. cbn [zeros append NilEmpty.uint_of_string].
  change ("0" ++ zeros k ++ s) with (String "0" (zeros k ++ s)).
  cbn [NilEmpty.uint_of_string].
  destruct (NilEmpty.uint_of_string (zeros k ++ s)) as [d |]; cbn.
  - rewrite <- IH. reflexivity.
  - exact IH.
Qed.

Lemma pad_read width n : read_number (pad width n) = n.
Proof. unfold pad. rewrite read_number_zeros. apply read_number_dec. Qed.

Lemma pad_length width n :
  String.length (dec n) <= width -> String.length (pad width n) = width.
Proof.
  intros H. unfold pad. rewrite string_length_append, zeros_length. lia.
Qed.

Lemma pad2_read n :
  n < 100 -> String.length (pad 2 n) = 2 /\ read_number (pad 2 n) = n.
Proof.
  intros H. split; [| apply pad_read].
  apply pad_length. rewrite dec_length.
  apply (short_run_digits 99); [vm_compute; reflexivity | lia].
Qed.

Lemma pad4_read n :
  n < 10 * 1000 -> String.length (pad 4 n) = 4 /\ read_number (pad 4 n) = n.
Proof.
  intros H. split; [| apply pad_read].
  apply pad_length. rewrite dec_length.
  apply (short_run_digits (10 * 1000 - 1)); [vm_compute; reflexivity | lia].
Qed.

Lemma strftime_compact_length t :
  valid_datetime t -> String.length (strftime_compact t) = 14.
Proof.
  intros (Hy & Hm & Hd & Hh & Hmin & Hs). unfold strftime_compact.
  rewrite !string_length_append.
  rewrite (proj1 (pad4_read (year t) ltac:(lia))).
  rewrite (proj1 (pad2_read (month t) ltac:(lia))).
  rewrite (proj1 (pad2_read (day t) ltac:(lia))).
  rewrite (proj1 (pad2_read (hour t) ltac:(lia))).
  rewrite (proj1 (pad2_read (minute t) ltac:(lia))).
  rewrite (proj1 (pad2_read (second t) ltac:(lia))).
  reflexivity.
Qed.

Lemma pad2_inj n m : n < 100 -> m < 100 -> pad 2 n = pad 2 m -> n = m.
Proof.
  intros Hn Hm H.
  rewrite <- (proj2 (pad2_read n Hn)), <- (proj2 (pad2_read m Hm)), H.
  reflexivity.
Qed.

Lemma pad4_inj n m :
  n < 10 * 1000 -> m < 10 * 1000 -> pad 4 n = pad 4 m -> n = m.
Proof.
  intros Hn Hm H.
  rewrite <- (proj2 (pad4_read n Hn)), <- (proj2 (pad4_read m Hm)), H.
  reflexivity.
Qed.

Lemma strftime_compact_inj t1 t2 :
  valid_datetime t1 -> valid_datetime t2 ->
  strftime_compact t1 = strftime_compact t2 -> t1 = t2.
Proof.
  intros (Hy1 & Hm1 & Hd1 & Hh1 & Hmin1 & Hs1)
         (Hy2 & Hm2 & Hd2 & Hh2 & Hmin2 & Hs2) H.
  unfold strftime_compact in H.
  apply append_same_length_l in H;
    [| rewrite (proj1 (pad4_read (year t1) ltac:(lia))),
         (proj1 (pad4_read (year t2) ltac:(lia))); reflexivity].
  destruct H as [Hy H].
  apply append_same_length_l in H;
    [| rewrite (proj1 (pad2_read (month t1) ltac:(lia))),
         (proj1 (pad2_read (month t2) ltac:(lia))); reflexivity].
  destruct H as [Hm H].
  apply append_same_length_l in H;
    [| rewrite (proj1 (pad2_read (day t1) ltac:(lia))),
         (proj1 (pad2_read (day t2) ltac:(lia))); reflexivity].
  destruct H as [Hd H].
  apply append_same_length_l in H;
    [| rewrite (proj1 (pad2_read (hour t1) ltac:(lia))),
         (proj1 (pad2_read (hour t2) ltac:(lia))); reflexivity].
  destruct H as [Hh H].
  apply append_same_length_l in H;
    [| rewrite (proj1 (pad2_read (minute t1) ltac:(lia))),
         (proj1 (pad2_read (minute t2) ltac:(lia))); reflexivity].
  destruct H as [Hmin Hs].
  apply pad4_inj in Hy; [| lia | lia].
  apply pad2_inj in Hm; [| lia | lia].
  apply pad2_inj in Hd; [| lia | lia].
  apply pad2_inj in Hh; [| lia | lia].
  apply pad2_inj in Hmin; [| lia | lia].
  apply pad2_inj in Hs; [| lia | lia].
  destruct t1, t2; cbn in *; subst; reflexivity.
Qed.

(** X23. The name [create_ami] gives an image tells the instance and the
    second of the clock reading apart from every other: two names are equal
    only for the same instance id and the same reading.  Names collide
    exactly when one instance is imaged twice within one second. *)
Theorem image_name_determines id1 id2 t1 t2 :
  valid_datetime t1 -> valid_datetime t2 ->
  image_name id1 t1 = image_name id2 t2 ->
  id1 = id2 /\ t1 = t2.
Proof.
  intros Hv1 Hv2 H. unfold image_name in H.
  apply append_same_length_l in H; [| reflexivity].
  destruct H as [_ H].
  apply append_same_length_r in H;
    [| rewrite !string_length_append, !strftime_compact_length by assumption;
       reflexivity].
  destruct H as [Hid H]. injection H as H.
  split; [exact Hid | apply strftime_compact_inj; assumption].
Qed.

Lemma image_name_determines_run :
  "i-1" = "i-1" /\ Scripted.noon = Scripted.noon.
Proof.
  apply (image_name_determines "i-1" "i-1" Scripted.noon Scripted.noon).
  - unfold valid_datetime; cbn; lia.
  - unfold valid_datetime; cbn; lia.
  - reflexivity.
Defined.

(** ** More concrete runs *)

(** X10 on a run: a running and a terminated instance on one page. *)
Lemma list_instances_returns_actionable_run :
  map summary [ {| inst_name := "N/A"; inst_id := "i-1";
                   inst_state := "running";
                   termination_protection := false;
                   stop_protection := true |} ]
  = map summary_of
      (filter (fun i => actionable (Boto3.StateName i))
         (raw_instances
            (pages_received
               (trace_of (list_instances Scripted.client 0 main_tags
                            Scripted.mixed_states)))))
  /\ Forall (fun info => inst_state info = "running"
                         \/ inst_state info = "stopping"
                         \/ inst_state info = "stopped")
            [ {| inst_name := "N/A"; inst_id := "i-1";
                 inst_state := "running";
                 termination_protection := false;
                 stop_protection := true |} ].
Proof.
  apply (list_instances_returns_actionable Scripted.client 0 main_tags
           Scripted.mixed_states).
  reflexivity.
Defined.

(** X11 on the same run: the terminated instance is read too. *)
Lemma list_instances_reads_every_instance_run :
  map fst (attribute_calls
             (trace_of (list_instances Scripted.client 0 main_tags
                          Scripted.mixed_states)))
  = flat_map (fun i => protection_reads (Boto3.InstanceId i))
      (raw_instances
         (pages_received
            (trace_of (list_instances Scripted.client 0 main_tags
                         Scripted.mixed_states))))
  /\ Forall (flags_read
               (trace_of (list_instances Scripted.client 0 main_tags
                            Scripted.mixed_states)))
            [ {| inst_name := "N/A"; inst_id := "i-1";
                 inst_state := "running";
                 termination_protection := false;
                 stop_protection := true |} ].
Proof.
  apply (list_instances_reads_every_instance Scripted.client 0 main_tags
           Scripted.mixed_states).
  reflexivity.
Defined.

(** X12 on a run: the attribute read of a terminated instance is rejected,
    and the listing is lost although a running instance follows. *)
Lemma list_instances_read_failure_run :
  result_of (list_instances Scripted.client 0 main_tags
               Scripted.terminated_unreadable)
  = Exn (ProviderExn Scripted.not_found)
  /\ exists before ev,
       trace_of (list_instances Scripted.client 0 main_tags
                   Scripted.terminated_unreadable)
       = (before ++ [ev])%list
       /\ failed_reads before = []
       /\ failed_reads [ev] = [Scripted.not_found].
Proof.
  apply (list_instances_read_failure Scripted.client 0 main_tags
           Scripted.terminated_unreadable Scripted.not_found).
  cbn. left. reflexivity.
Defined.

(** X15 on a run: two instances, every call answered. *)
Lemma backup_instances_returns_completed_run :
  map instance_id
      [ completed_backup Scripted.web Scripted.noon "ami-default";
        completed_backup Scripted.db Scripted.noon "ami-default" ]
  = map inst_id [Scripted.web; Scripted.db]
  /\ map instance_name
         [ completed_backup Scripted.web Scripted.noon "ami-default";
           completed_backup Scripted.db Scripted.noon "ami-default" ]
     = map inst_name [Scripted.web; Scripted.db]
  /\ Forall (fun result => backup_completed result = true)
            [ completed_backup Scripted.web Scripted.noon "ami-default";
              completed_backup Scripted.db Scripted.noon "ami-default" ]
  /\ Forall (fun result =>
               exists req,
                 Boto3.img_InstanceId req = instance_id result
                 /\ In (req, inr (ami_id result))
                       (image_calls
                          (trace_of (backup_instances Scripted.client
                                       Scripted.host
                                       [Scripted.web; Scripted.db]
                                       Scripted.quiet))))
            [ completed_backup Scripted.web Scripted.noon "ami-default";
              completed_backup Scripted.db Scripted.noon "ami-default" ]
  /\ tagging_calls (trace_of (backup_instances Scripted.client Scripted.host
                                [Scripted.web; Scripted.db] Scripted.quiet))
     = map (fun result =>
              ([ami_id result],
               [ {| Boto3.Key := "Name"; Boto3.Value := ami_name result |} ],
               inr tt))
           [ completed_backup Scripted.web Scripted.noon "ami-default";
             completed_backup Scripted.db Scripted.noon "ami-default" ].
Proof.
  apply (backup_instances_returns_completed Scripted.client Scripted.host
           [Scripted.web; Scripted.db] Scripted.quiet).
  reflexivity.
Defined.

(** X21 on a run: two unprotected instances. *)
Lemma main_skips_guard_without_protection_run :
  Forall guard_free
         (trace_of (main Scripted.client Scripted.host 1 Scripted.two_pages)).
Proof.
  apply (main_skips_guard_without_protection Scripted.client Scripted.host 1
           Scripted.two_pages
           [ {| inst_name := "N/A"; inst_id := "i-1"; inst_state := "running";
                termination_protection := false; stop_protection := false |};
             {| inst_name := "N/A"; inst_id := "i-2"; inst_state := "stopped";
                termination_protection := false; stop_protection := false |} ]).
  - reflexivity.
  - repeat constructor.
Defined.

(** X22 on a run: one protected instance, the operator answers "Y". *)
Lemma main_clears_every_instance_run :
  exists failure,
    made_until_failure
      (flat_map (fun i => clear_requests (inst_id i)) [Scripted.protected_web])
      (modify_calls
         (trace_of (main Scripted.client Scripted.host 1
                      Scripted.protected_affirmed)))
      failure
    /\ forall err,
         failure = Some err ->
         result_of (main Scripted.client Scripted.host 1
                      Scripted.protected_affirmed)
         = Exn (ProviderExn err).
Proof.
  eapply (main_clears_every_instance Scripted.client Scripted.host 1
            Scripted.protected_affirmed [Scripted.protected_web]).
  - reflexivity.
  - constructor. left. reflexivity.
  - reflexivity.
  - reflexivity.
Defined.

(** Two runs of [main] through the backup stage.  With two listed
    instances that are both imaged and tagged, both are terminated, in
    order. *)
Lemma main_terminates_both_imaged :
  result_of (main Scripted.client Scripted.host 1 Scripted.two_pages) = Val tt
  /\ map snd (image_calls
                (trace_of (main Scripted.client Scripted.host 1
                             Scripted.two_pages)))
     = [inr "ami-default"; inr "ami-default"]
  /\ map fst (terminate_calls
                (trace_of (main Scripted.client Scripted.host 1
                             Scripted.two_pages)))
     = [["i-1"]; ["i-2"]].
Proof. repeat split; reflexivity. Qed.

(** With two listed instances, the second of which is rejected twice, [main]
    ends with the [UnboundLocalError] of [create_ami]: nothing is terminated,
    the instance that was imaged included. *)
Lemma main_failed_backup_terminates_nothing :
  result_of (main Scripted.client Scripted.host 1
               Scripted.listed_second_rejected)
  = Exn (UnboundLocalError "ami_id")
  /\ map snd (image_calls
                (trace_of (main Scripted.client Scripted.host 1
                             Scripted.listed_second_rejected)))
     = [inr "ami-1"; inl Scripted.throttled; inl Scripted.throttled]
  /\ terminate_calls
       (trace_of (main Scripted.client Scripted.host 1
                    Scripted.listed_second_rejected))
     = [].
Proof. repeat split; reflexivity. Qed.
